(** * miknet packet framing: [mikpack] and [mikpack_mem_est]

    A shallow embedding of [src/mikpack.c]: the fragment counter
    [fragments], the two size helpers, the memory estimator
    [mikpack_mem_est] and the packer [mikpack], together with the
    properties the specification states about them.

    C integers are mathematical integers ([Z]) with every conversion to a
    fixed-width unsigned type written out as a reduction modulo a power of
    two.  Memory is a store of byte buffers addressed by block and offset;
    an access outside a buffer, through a null or a dangling pointer, is
    undefined behaviour in C and makes the computation yield [None]. *)

From Stdlib Require Import ZArith List Lia Bool.
From Stdlib.Strings Require Import Byte.
From stdpp Require Import base option list gmap.

Local Open Scope Z_scope.

(** ** Fixed-width integers *)

Definition uint16_t (z : Z) : Z := z mod 2 ^ 16.
Definition uint32_t (z : Z) : Z := z mod 2 ^ 32.

(** [size_t] is taken as 64 bits wide (LP64, the POSIX targets of the
    library). *)
Definition size_t (z : Z) : Z := z mod 2 ^ 64.

(** ** Data *)

(** [miktype_t], with the numbering of the enumeration. *)
Inductive miktype_t : Type :=
| MIK_ERR
| MIK_JOIN
| MIK_QUIT
| MIK_DATA.

Definition miktype_code (t : miktype_t) : Z :=
  match t with
  | MIK_ERR => -1
  | MIK_JOIN => 0
  | MIK_QUIT => 1
  | MIK_DATA => 2
  end.

(** Modelled from the spec: the send-side fragment header [mikmeta_t],
    declared in [miknet/mikmeta.h].  The four fields are the ones
    [mikpack] assigns (identifier, type, part index, payload size), and
    [part] and [size] are taken to be as wide as the [uint16_t] fragment
    counter they are compared with. *)
Record mikmeta_t : Type := Mikmeta {
  id : Z;
  type : miktype_t;
  part : Z;
  size : Z
}.

Definition set_part (m : mikmeta_t) (v : Z) : mikmeta_t :=
  {| id := id m; type := type m; part := uint16_t v; size := size m |}.

Definition set_size (m : mikmeta_t) (v : Z) : mikmeta_t :=
  {| id := id m; type := type m; part := part m; size := uint16_t v |}.

(** Memory blocks and pointers.  [NULL] is the null pointer; [Ptr b o]
    points [o] octets into the buffer held by block [b]. *)
Definition block : Type := positive.

Inductive ptr : Type :=
| NULL
| Ptr (b : block) (ofs : Z).

#[global] Instance ptr_eq_dec : EqDecision ptr.
Proof. solve_decision. Defined.

Definition is_null (p : ptr) : bool :=
  match p with NULL => true | Ptr _ _ => false end.

Definition ptr_add (p : ptr) (d : Z) : ptr :=
  match p with
  | NULL => NULL
  | Ptr b o => Ptr b (o + d)
  end.

(** Modelled from the spec: the packed-message handle [mikpack_t] of
    [miknet/mikpack.h], a reference count and the buffer it is bound to;
    these are the two fields [mikpack] assigns. *)
Record mikpack_t : Type := Mikpack {
  ref_count : Z;
  data : ptr
}.

(** ** The interface of the headers

    [mikpack.c] takes its constants, its error codes, the identifier
    generator [mikid] and the header codec [mikmeta_serialize] from
    [miknet/mikdef.h], [mikid.h], [mikmeta.h] and [mikpack.h].  They are
    the parameters of the development. *)
Class MikDefs : Type := {
  MIKPACK_FRAG_SIZE : Z;
  MIKPACK_REAL_FRAG_SIZE : Z;
  MIKFRAG_HEADER_SIZE : Z;
  MIKMETA_SERIALIZED_OCTETS : Z;
  MIKERR_NONE : Z;
  MIKERR_BAD_PTR : Z;
  idgen : Type;
  mikid : idgen -> Z * idgen;
  mikmeta_serialize : mikmeta_t -> list byte
}.

(** Modelled from the spec: what the headers define.  The stride
    [MIKPACK_REAL_FRAG_SIZE] is the header size plus the per-fragment
    payload size, and there is one header size (section 3); the codec
    writes exactly [MIKMETA_SERIALIZED_OCTETS] octets; the products the
    packer computes in [int] do not overflow; the two result codes
    differ. *)
Class MikDefsOk (D : MikDefs) : Prop := {
  frag_size_pos : 0 < MIKPACK_FRAG_SIZE;
  header_size_nonneg : 0 <= MIKFRAG_HEADER_SIZE;
  header_size_meta : MIKMETA_SERIALIZED_OCTETS = MIKFRAG_HEADER_SIZE;
  real_frag_size : MIKPACK_REAL_FRAG_SIZE = MIKPACK_FRAG_SIZE + MIKMETA_SERIALIZED_OCTETS;
  stride_no_overflow : 65535 * MIKPACK_REAL_FRAG_SIZE < 2 ^ 31;
  serialize_length : forall m, Z.of_nat (length (mikmeta_serialize m)) = MIKMETA_SERIALIZED_OCTETS;
  codes_differ : MIKERR_NONE <> MIKERR_BAD_PTR
}.

(** ** The size computations *)

Section Sizes.
Context {D : MikDefs}.

(** [static uint16_t fragments(size_t len, size_t *remainder)]: the
    returned pair is the function's result and the value stored through
    [remainder]. *)
Definition fragments (len : Z) : Z * Z :=
  let frags := uint16_t (len / MIKPACK_FRAG_SIZE) in
  let remainder := len mod MIKPACK_FRAG_SIZE in
  if negb (remainder =? 0) then (uint16_t (frags + 1), remainder)
  else (frags, remainder).

(** The payload size the loop of [mikpack] gives fragment [i] of [frags]:
    the condition and the two branches of its [if]. *)
Definition fragment_size (frags remainder i : Z) : Z :=
  if (i =? frags - 1) && negb (remainder =? 0) then remainder
  else MIKPACK_FRAG_SIZE.

(** [static size_t fragment_data_size(uint16_t frags)] *)
Definition fragment_data_size (frags : Z) : Z :=
  size_t (frags * MIKPACK_FRAG_SIZE).

(** [static size_t semi_fragment_data_size(size_t len)] *)
Definition semi_fragment_data_size (len : Z) : Z :=
  size_t (len + MIKFRAG_HEADER_SIZE).

(** [size_t mikpack_mem_est(size_t len)] *)
Definition mikpack_mem_est (len : Z) : Z :=
  let '(frags, remainder) := fragments len in
  let mem_est := fragment_data_size frags in
  if negb (remainder =? 0) || (len =? 0)
  then size_t (mem_est + semi_fragment_data_size remainder)
  else mem_est.

(** The number of fragments in the words of the specification: [len]
    divided by the per-fragment payload size, rounded up. *)
Definition ceil_fragments (len : Z) : Z :=
  (len + MIKPACK_FRAG_SIZE - 1) / MIKPACK_FRAG_SIZE.

(** The fragment count as section 8 of the specification words it. *)
Definition spec_fragment_count (len : Z) : Z :=
  if len =? 0 then 1
  else if len mod MIKPACK_FRAG_SIZE =? 0 then len / MIKPACK_FRAG_SIZE
  else len / MIKPACK_FRAG_SIZE + 1.

End Sizes.

(** ** Memory and the state of a call *)

Section Packer.
Context {D : MikDefs}.

(** The part of the machine state [mikpack] can touch: the handles, the
    byte buffers, and the state of the identifier generator. *)
Record world : Type := World {
  handles : gmap block mikpack_t;
  buffers : gmap block (list byte);
  ids : idgen
}.

(** Computations over the state; [None] is undefined behaviour. *)
Definition M (A : Type) : Type := world -> option (A * world).

Definition ret {A : Type} (a : A) : M A := fun w => Some (a, w).

Definition bind {A B : Type} (c : M A) (k : A -> M B) : M B :=
  fun w => match c w with
           | Some (a, w') => k a w'
           | None => None
           end.

Notation "'let*' x ':=' c 'in' k" := (bind c (fun x => k))
  (at level 10, x name, c at level 100, k at level 200).

(** [pack->ref_count = v] *)
Definition store_ref_count (pack : block) (v : Z) : M unit := fun w =>
  match handles w !! pack with
  | Some h =>
      Some (tt, {| handles := <[pack := {| ref_count := v; data := data h |}]> (handles w);
                   buffers := buffers w; ids := ids w |})
  | None => None
  end.

(** [pack->data = v] *)
Definition store_data (pack : block) (v : ptr) : M unit := fun w =>
  match handles w !! pack with
  | Some h =>
      Some (tt, {| handles := <[pack := {| ref_count := ref_count h; data := v |}]> (handles w);
                   buffers := buffers w; ids := ids w |})
  | None => None
  end.

(** [pack->data] *)
Definition load_data (pack : block) : M ptr := fun w =>
  match handles w !! pack with
  | Some h => Some (data h, w)
  | None => None
  end.

(** [mikid()] *)
Definition call_mikid : M Z := fun w =>
  let '(i, g) := mikid (ids w) in
  Some (i, {| handles := handles w; buffers := buffers w; ids := g |}).

(** The octets [bs] written over a buffer from offset [o] on. *)
Definition splice (buf : list byte) (o : Z) (bs : list byte) : list byte :=
  take (Z.to_nat o) buf ++ bs ++ drop (Z.to_nat o + length bs) buf.

(** Writing [bs] at [p]: defined when the whole range lies in a buffer. *)
Definition write_bytes (p : ptr) (bs : list byte) : M unit := fun w =>
  match p with
  | NULL => None
  | Ptr b o =>
      match buffers w !! b with
      | Some buf =>
          if (0 <=? o) && (o + Z.of_nat (length bs) <=? Z.of_nat (length buf))
          then Some (tt, {| handles := handles w;
                            buffers := <[b := splice buf o bs]> (buffers w);
                            ids := ids w |})
          else None
      | None => None
      end
  end.

(** The [n] octets of a buffer from offset [o] on. *)
Definition slice (buf : list byte) (o n : Z) : list byte :=
  take (Z.to_nat n) (drop (Z.to_nat o) buf).

(** Reading [n] octets at [p]. *)
Definition read_bytes (p : ptr) (n : Z) : M (list byte) := fun w =>
  match p with
  | NULL => None
  | Ptr b o =>
      match buffers w !! b with
      | Some buf =>
          if (0 <=? o) && (0 <=? n) && (o + n <=? Z.of_nat (length buf))
          then Some (slice buf o n, w)
          else None
      | None => None
      end
  end.

(** Two ranges of [n] octets that share an octet. *)
Definition overlap (p q : ptr) (n : Z) : bool :=
  match p, q with
  | Ptr b1 o1, Ptr b2 o2 => (b1 =? b2)%positive && (o1 <? o2 + n) && (o2 <? o1 + n)
  | _, _ => false
  end.

(** [memcpy(dst, src, n)]: undefined on overlapping ranges. *)
Definition memcpy (dst src : ptr) (n : Z) : M unit :=
  if overlap dst src n then fun _ => None
  else
    let* bs := read_bytes src n in
    write_bytes dst bs.

(** ** The packer *)

(** The [for] loop of [mikpack] from the current [metadata.part] on: the
    test [metadata.part < frags], the body, the increment.  The recursion
    is on [fuel], an upper bound on the iterations left; [mikpack] passes
    [frags], which the loop never exhausts ([pack_loop_returns]). *)
Fixpoint pack_loop (fuel : nat) (pack : block) (src : ptr) (frags remainder : Z)
    (metadata : mikmeta_t) : M unit :=
  if part metadata <? frags then
    match fuel with
    | O => fun _ => None
    | S fuel' =>
        let offset := uint32_t (part metadata * MIKPACK_REAL_FRAG_SIZE) in
        let metadata :=
          if (part metadata =? frags - 1) && negb (remainder =? 0)
          then set_size metadata remainder
          else set_size metadata MIKPACK_FRAG_SIZE in
        let* dst := load_data pack in
        let* _ := write_bytes (ptr_add dst offset) (mikmeta_serialize metadata) in
        let* dst := load_data pack in
        let* _ := memcpy (ptr_add dst (offset + MIKMETA_SERIALIZED_OCTETS))
                         (ptr_add src (part metadata * MIKPACK_FRAG_SIZE))
                         (size metadata) in
        pack_loop fuel' pack src frags remainder
                  (set_part metadata (part metadata + 1))
    end
  else ret tt.

(** [int mikpack(mikpack_t *pack, const uint8_t *src, size_t len,
    uint8_t *dest)].  A handle pointer is the block of the handle, [None]
    when null.  [metadata.size] is not initialised before the loop; the
    loop assigns it before every use. *)
Definition mikpack (pack : option block) (src : ptr) (len : Z) (dest : ptr) : M Z :=
  match pack with
  | None => ret MIKERR_BAD_PTR
  | Some pk =>
      if is_null src || (len =? 0) || is_null dest then ret MIKERR_BAD_PTR
      else
        let* _ := store_ref_count pk 0 in
        let* _ := store_data pk dest in
        let* i := call_mikid in
        let metadata := {| id := i; type := MIK_DATA; part := 0; size := 0 |} in
        let '(frags, remainder) := fragments len in
        let* _ := pack_loop (Z.to_nat frags) pk src frags remainder metadata in
        ret MIKERR_NONE
  end.

(** The octets of the destination a call of [mikpack] reaches: the
    offset of the last fragment the loop writes, plus its header and its
    payload; nothing when the loop does not run. *)
Definition pack_extent (len : Z) : Z :=
  let '(frags, remainder) := fragments len in
  if frags =? 0 then 0
  else (frags - 1) * MIKPACK_REAL_FRAG_SIZE + MIKMETA_SERIALIZED_OCTETS
       + fragment_size frags remainder (frags - 1).

(** Two states with the same blocks: no handle and no buffer was
    allocated, freed or resized between them. *)
Definition same_blocks (w w' : world) : Prop :=
  dom (handles w') = dom (handles w) /\
  forall b, length <$> (buffers w' !! b) = length <$> (buffers w !! b).

End Packer.

(** ** An instance for the concrete scenario of the specification

    A per-fragment payload of two octets, a four-octet header holding
    one octet per field, and a counter as identifier generator. *)

Definition octet (z : Z) : byte :=
  match Byte.of_N (Z.to_N (z mod 256)) with
  | Some b => b
  | None => x00
  end.

Definition serialize4 (m : mikmeta_t) : list byte :=
  [octet (id m); octet (miktype_code (type m)); octet (part m); octet (size m)].

Definition scenario : MikDefs := {|
  MIKPACK_FRAG_SIZE := 2;
  MIKPACK_REAL_FRAG_SIZE := 6;
  MIKFRAG_HEADER_SIZE := 4;
  MIKMETA_SERIALIZED_OCTETS := 4;
  MIKERR_NONE := 0;
  MIKERR_BAD_PTR := -1;
  idgen := Z;
  mikid := fun g => (g, g + 1);
  mikmeta_serialize := serialize4
|}.

(** A state with one handle (block 1), a source buffer (block 2) and a
    destination buffer of [cap] octets (block 3). *)
Definition scenario_world (payload : list byte) (cap : nat) : @world scenario :=
  @World scenario
    {[ 1%positive := {| ref_count := 7; data := NULL |} ]}
    {[ 2%positive := payload; 3%positive := repeat x00 cap ]}
    40.

Definition payload9 : list byte :=
  [x61; x62; x63; x64; x65; x66; x67; x68; x69].

(** The 29 octets the packer lays out for [payload9] in this instance:
    five headers (identifier 40, type 2, part, size), each followed by
    its payload. *)
Definition scenario_packed : list byte :=
  [x28; x02; x00; x02; x61; x62;
   x28; x02; x01; x02; x63; x64;
   x28; x02; x02; x02; x65; x66;
   x28; x02; x03; x02; x67; x68;
   x28; x02; x04; x01; x69].

(** ** The packed image

    What a packed buffer holds, fragment by fragment, and how a payload is
    read back from it.  These functions are not in the source: they state
    what the loop of [mikpack] leaves in the destination. *)

Section Image.
Context {D : MikDefs}.

(** Fragment [i] of a message: its header, then its payload taken from
    offset [os + i * MIKPACK_FRAG_SIZE] of the source buffer. *)
Definition fragment_octets (ident : Z) (sbuf : list byte) (os : Z)
    (frags remainder i : Z) : list byte :=
  mikmeta_serialize {| id := ident; type := MIK_DATA; part := i;
                       size := fragment_size frags remainder i |}
  ++ slice sbuf (os + i * MIKPACK_FRAG_SIZE) (fragment_size frags remainder i).

(** The fragments [i], [i + 1], ... ([n] of them), back to back. *)
Fixpoint fragments_from (ident : Z) (sbuf : list byte) (os : Z)
    (frags remainder : Z) (n : nat) (i : Z) : list byte :=
  match n with
  | O => []
  | S n' => fragment_octets ident sbuf os frags remainder i
            ++ fragments_from ident sbuf os frags remainder n' (i + 1)
  end.

(** All the fragments of a payload of [len] octets. *)
Definition packed_octets (ident : Z) (sbuf : list byte) (os len : Z) : list byte :=
  let '(frags, remainder) := fragments len in
  fragments_from ident sbuf os frags remainder (Z.to_nat frags) 0.

(** The payload part of fragment [i] in a buffer packed from offset
    [base] on: it follows the header at the fragment's stride. *)
Definition fragment_payload (buf : list byte) (base : Z)
    (frags remainder i : Z) : list byte :=
  slice buf (base + i * MIKPACK_REAL_FRAG_SIZE + MIKMETA_SERIALIZED_OCTETS)
        (fragment_size frags remainder i).

Fixpoint payloads_from (buf : list byte) (base : Z) (frags remainder : Z)
    (n : nat) (i : Z) : list byte :=
  match n with
  | O => []
  | S n' => fragment_payload buf base frags remainder i
            ++ payloads_from buf base frags remainder n' (i + 1)
  end.

(** The payload parts of all the fragments of a message of [len] octets,
    in the order of their part indices. *)
Definition unpack_payload (buf : list byte) (base len : Z) : list byte :=
  let '(frags, remainder) := fragments len in
  payloads_from buf base frags remainder (Z.to_nat frags) 0.

End Image.

(** * Properties *)

(** ** Buffers *)

Lemma length_splice buf o bs :
  0 <= o -> o + Z.of_nat (length bs) <= Z.of_nat (length buf) ->
  length (splice buf o bs) = length buf.
Proof.
  intros Ho Hb. unfold splice.
  rewrite !length_app, length_take, length_drop. lia.
Qed.

Lemma length_slice buf o n :
  0 <= o -> 0 <= n -> o + n <= Z.of_nat (length buf) ->
  Z.of_nat (length (slice buf o n)) = n.
Proof.
  intros. unfold slice. rewrite length_take, length_drop. lia.
Qed.

Lemma take_splice buf o bs (k : nat) :
  o <= Z.of_nat (length buf) -> (k <= Z.to_nat o)%nat ->
  take k (splice buf o bs) = take k buf.
Proof.
  intros Ho Hk. unfold splice.
  rewrite take_app_le by (rewrite length_take; lia).
  rewrite take_take. f_equal. lia.
Qed.

Lemma splice_app buf o a b :
  0 <= o -> o + Z.of_nat (length a) <= Z.of_nat (length buf) ->
  splice (splice buf o a) (o + Z.of_nat (length a)) b = splice buf o (a ++ b).
Proof.
  intros Ho Hb. unfold splice.
  replace (Z.to_nat (o + Z.of_nat (length a))) with (Z.to_nat o + length a)%nat by lia.
  assert (Hlt : length (take (Z.to_nat o) buf) = Z.to_nat o)
    by (rewrite length_take; lia).
  rewrite (app_assoc (take _ buf) a).
  rewrite take_app_length' by (rewrite length_app, Hlt; lia).
  rewrite drop_app_ge by (rewrite length_app, Hlt; lia).
  rewrite length_app, Hlt, drop_drop, <- !app_assoc.
  rewrite length_app. do 4 f_equal. lia.
Qed.

Lemma slice_splice buf o bs :
  0 <= o -> o + Z.of_nat (length bs) <= Z.of_nat (length buf) ->
  slice (splice buf o bs) o (Z.of_nat (length bs)) = bs.
Proof.
  intros Ho Hb. unfold slice, splice.
  rewrite drop_app_length' by (rewrite length_take; lia).
  rewrite Nat2Z.id. apply take_app_length.
Qed.

Lemma slice_prefix buf buf' o n :
  0 <= o -> 0 <= n ->
  take (Z.to_nat (o + n)) buf = take (Z.to_nat (o + n)) buf' ->
  slice buf o n = slice buf' o n.
Proof.
  intros Ho Hn Heq. unfold slice.
  rewrite !take_drop_commute.
  replace (Z.to_nat o + Z.to_nat n)%nat with (Z.to_nat (o + n)) by lia.
  by rewrite Heq.
Qed.

(** ** Arithmetic of the fragment counter *)

Section Arith.
Context {D : MikDefs} {Hok : MikDefsOk D}.

Lemma frag_size_u16 : 0 < MIKPACK_FRAG_SIZE < 2 ^ 16.
Proof.
  pose proof frag_size_pos. pose proof header_size_nonneg.
  pose proof header_size_meta. pose proof real_frag_size.
  pose proof stride_no_overflow. lia.
Qed.

Lemma real_frag_size_bounds :
  MIKPACK_FRAG_SIZE <= MIKPACK_REAL_FRAG_SIZE /\ 0 <= MIKMETA_SERIALIZED_OCTETS.
Proof.
  pose proof header_size_nonneg. pose proof header_size_meta.
  pose proof real_frag_size. lia.
Qed.

Lemma ceil_fragments_eq len :
  ceil_fragments len =
  len / MIKPACK_FRAG_SIZE + (if len mod MIKPACK_FRAG_SIZE =? 0 then 0 else 1).
Proof.
  pose proof frag_size_pos as HF. unfold ceil_fragments.
  assert (HF0 : MIKPACK_FRAG_SIZE <> 0) by lia.
  pose proof (Z.div_mod len MIKPACK_FRAG_SIZE HF0) as Hdm.
  pose proof (Z.mod_pos_bound len MIKPACK_FRAG_SIZE HF) as Hr.
  symmetry. destruct (Z.eqb_spec (len mod MIKPACK_FRAG_SIZE) 0) as [Hz|Hnz].
  - apply Z.div_unique with (r := MIKPACK_FRAG_SIZE - 1); lia.
  - apply Z.div_unique with (r := len mod MIKPACK_FRAG_SIZE - 1); lia.
Qed.

Lemma fragments_snd len : snd (fragments len) = len mod MIKPACK_FRAG_SIZE.
Proof. unfold fragments. by destruct (negb _). Qed.

Lemma fragments_fst len :
  fst (fragments len) = ceil_fragments len mod 2 ^ 16.
Proof.
  rewrite ceil_fragments_eq. unfold fragments, uint16_t.
  destruct (Z.eqb_spec (len mod MIKPACK_FRAG_SIZE) 0); cbn [negb fst].
  - by rewrite Z.add_0_r.
  - by rewrite Zplus_mod_idemp_l.
Qed.

Lemma fragments_range len : 0 <= fst (fragments len) < 2 ^ 16.
Proof. rewrite fragments_fst. apply Z.mod_pos_bound. lia. Qed.

Lemma ceil_fragments_nonneg len : 0 <= len -> 0 <= ceil_fragments len.
Proof.
  intros Hlen. pose proof frag_size_pos. unfold ceil_fragments.
  apply Z.div_pos; lia.
Qed.

Lemma fragments_le_ceil len :
  0 <= len -> fst (fragments len) <= ceil_fragments len.
Proof.
  intros Hlen. rewrite fragments_fst.
  apply Z.mod_le; [by apply ceil_fragments_nonneg | lia].
Qed.

Lemma fragment_size_bounds frags len i :
  0 <= fragment_size frags (len mod MIKPACK_FRAG_SIZE) i <= MIKPACK_FRAG_SIZE.
Proof.
  pose proof frag_size_pos as HF.
  pose proof (Z.mod_pos_bound len MIKPACK_FRAG_SIZE HF).
  unfold fragment_size. destruct (_ && _); lia.
Qed.


Lemma fragment_source_bound len i :
  0 <= len -> 0 <= i < fst (fragments len) ->
  i * MIKPACK_FRAG_SIZE
  + fragment_size (fst (fragments len)) (snd (fragments len)) i <= len.
Proof.
  intros Hlen Hi. pose proof frag_size_pos as HF.
  pose proof (fragments_le_ceil len Hlen) as Hle.
  rewrite ceil_fragments_eq in Hle. rewrite fragments_snd.
  assert (HF0 : MIKPACK_FRAG_SIZE <> 0) by lia.
  pose proof (Z.div_mod len MIKPACK_FRAG_SIZE HF0) as Hdm.
  pose proof (Z.mod_pos_bound len MIKPACK_FRAG_SIZE HF) as Hr.
  unfold fragment_size.
  destruct (Z.eqb_spec i (fst (fragments len) - 1)) as [Hlast|Hnl];
    destruct (Z.eqb_spec (len mod MIKPACK_FRAG_SIZE) 0) as [Hz|Hnz];
    cbn [andb negb]; nia.
Qed.

Lemma fragment_extent_bound len i :
  0 <= i < fst (fragments len) ->
  i * MIKPACK_REAL_FRAG_SIZE + MIKMETA_SERIALIZED_OCTETS
  + fragment_size (fst (fragments len)) (snd (fragments len)) i
  <= pack_extent len.
Proof.
  intros Hi. pose proof frag_size_pos as HF.
  pose proof real_frag_size_bounds as [HR HM]. pose proof real_frag_size as HRF.
  unfold pack_extent. destruct (fragments len) as [frags remainder] eqn:Hfr.
  cbn [fst snd] in *.
  destruct (Z.eqb_spec frags 0) as [|_]; [lia|].
  destruct (decide (i = frags - 1)) as [->|Hne]; [lia|].
  assert (Hsz : fragment_size frags remainder i = MIKPACK_FRAG_SIZE).
  { unfold fragment_size. destruct (Z.eqb_spec i (frags - 1)); [lia | done]. }
  assert (Hlast : 0 <= fragment_size frags remainder (frags - 1)).
  { pose proof (fragment_size_bounds frags len (frags - 1)) as Hb.
    replace remainder with (len mod MIKPACK_FRAG_SIZE); [lia|].
    by rewrite <- fragments_snd, Hfr. }
  rewrite Hsz. nia.
Qed.

End Arith.

(** ** The memory operations and the loop of the packer *)

Section PackerFacts.
Context {D : MikDefs} {Hok : MikDefsOk D}.

Lemma bind_Some {A B : Type} (c : M A) (k : A -> M B) (w : world) r :
  bind c k w = Some r -> exists a w1, c w = Some (a, w1) /\ k a w1 = Some r.
Proof. unfold bind. destruct (c w) as [[a w1]|]; [eauto | done]. Qed.

Lemma load_data_Some pk (w : world) p w' :
  load_data pk w = Some (p, w') ->
  w' = w /\ exists h, handles w !! pk = Some h /\ data h = p.
Proof.
  unfold load_data. destruct (handles w !! pk) as [h|] eqn:Hh; [|done].
  intros [= <- <-]. eauto.
Qed.

Lemma write_bytes_Some p bs (w : world) u w' :
  write_bytes p bs w = Some (u, w') ->
  exists b o buf,
    p = Ptr b o /\ buffers w !! b = Some buf /\
    0 <= o /\ o + Z.of_nat (length bs) <= Z.of_nat (length buf) /\
    w' = {| handles := handles w;
            buffers := <[b := splice buf o bs]> (buffers w);
            ids := ids w |}.
Proof.
  unfold write_bytes. destruct p as [|b o]; [done|].
  destruct (buffers w !! b) as [buf|] eqn:Hb; [|done].
  destruct (_ && _) eqn:Hin; [|done].
  rewrite andb_true_iff, !Z.leb_le in Hin.
  intros [= _ <-]. exists b, o, buf. repeat split; (done || lia).
Qed.

Lemma read_bytes_Some p n (w : world) bs w' :
  read_bytes p n w = Some (bs, w') ->
  exists b o buf,
    p = Ptr b o /\ buffers w !! b = Some buf /\
    0 <= o /\ 0 <= n /\ o + n <= Z.of_nat (length buf) /\
    bs = slice buf o n /\ w' = w.
Proof.
  unfold read_bytes. destruct p as [|b o]; [done|].
  destruct (buffers w !! b) as [buf|] eqn:Hb; [|done].
  destruct (_ && _) eqn:Hin; [|done].
  rewrite !andb_true_iff, !Z.leb_le in Hin.
  intros [= <- <-]. exists b, o, buf. repeat split; (done || lia).
Qed.

Lemma memcpy_Some dst src n (w : world) u w' :
  memcpy dst src n w = Some (u, w') ->
  exists bs, read_bytes src n w = Some (bs, w) /\ write_bytes dst bs w = Some (u, w').
Proof.
  unfold memcpy. destruct (overlap dst src n); [done|].
  intros (bs & w1 & Hr & Hw)%bind_Some.
  destruct (read_bytes_Some _ _ _ _ _ Hr) as (b & o & buf & _ & _ & _ & _ & _ & _ & ->).
  eauto.
Qed.


Lemma pack_loop_done n pk src frags remainder md :
  frags <= part md ->
  pack_loop n pk src frags remainder md = ret tt.
Proof.
  intros Hdone. destruct n; cbn [pack_loop];
    by rewrite (proj2 (Z.ltb_ge _ _) Hdone).
Qed.

Lemma pack_loop_S n pk src frags remainder md :
  part md < frags ->
  pack_loop (S n) pk src frags remainder md =
  let offset := uint32_t (part md * MIKPACK_REAL_FRAG_SIZE) in
  let md1 := set_size md (fragment_size frags remainder (part md)) in
  bind (load_data pk) (fun dst =>
  bind (write_bytes (ptr_add dst offset) (mikmeta_serialize md1)) (fun _ =>
  bind (load_data pk) (fun dst =>
  bind (memcpy (ptr_add dst (offset + MIKMETA_SERIALIZED_OCTETS))
               (ptr_add src (part md1 * MIKPACK_FRAG_SIZE)) (size md1)) (fun _ =>
  pack_loop n pk src frags remainder (set_part md1 (part md1 + 1)))))).
Proof.
  intros Hlt. cbn [pack_loop]. rewrite (proj2 (Z.ltb_lt _ _) Hlt).
  unfold fragment_size. by destruct (_ && _).
Qed.

Lemma pack_loop_fuel pk src frags remainder md (w : world) r :
  pack_loop 0 pk src frags remainder md w = Some r -> frags <= part md.
Proof.
  cbn [pack_loop]. by destruct (Z.ltb_spec (part md) frags).
Qed.

Lemma pack_loop_inv pk bs os bd od frags remainder :
  0 <= frags < 2 ^ 16 -> 0 <= remainder < MIKPACK_FRAG_SIZE ->
  forall n md (w w' : world) h dbuf,
    pack_loop n pk (Ptr bs os) frags remainder md w = Some (tt, w') ->
    handles w !! pk = Some h -> data h = Ptr bd od ->
    buffers w !! bd = Some dbuf ->
    0 <= part md -> part md + Z.of_nat n = frags ->
    exists dbuf',
      handles w' = handles w /\ ids w' = ids w /\
      buffers w' = <[bd := dbuf']> (buffers w) /\
      length dbuf' = length dbuf /\
      (forall k, (k <= Z.to_nat (od + part md * MIKPACK_REAL_FRAG_SIZE))%nat ->
                 take k dbuf' = take k dbuf) /\
      forall i, part md <= i < frags ->
        let sz := fragment_size frags remainder i in
        0 <= od + i * MIKPACK_REAL_FRAG_SIZE /\
        od + i * MIKPACK_REAL_FRAG_SIZE + MIKMETA_SERIALIZED_OCTETS + sz
          <= Z.of_nat (length dbuf) /\
        exists payload,
          Z.of_nat (length payload) = sz /\
          slice dbuf' (od + i * MIKPACK_REAL_FRAG_SIZE) (MIKMETA_SERIALIZED_OCTETS + sz) =
            mikmeta_serialize {| id := id md; type := type md; part := i; size := sz |}
            ++ payload /\
          forall sbuf, bs <> bd -> buffers w !! bs = Some sbuf ->
            0 <= os + i * MIKPACK_FRAG_SIZE /\
            os + i * MIKPACK_FRAG_SIZE + sz <= Z.of_nat (length sbuf) /\
            payload = slice sbuf (os + i * MIKPACK_FRAG_SIZE) sz.
Proof.
  intros Hfrags Hrem.
  pose proof frag_size_u16 as HF. pose proof real_frag_size_bounds as [HR HM].
  pose proof stride_no_overflow as Hov. pose proof real_frag_size as HRF.
  induction n as [|n IH]; intros md w w' h dbuf Hrun Hh Hd Hb Hp Hn.
  - rewrite pack_loop_done in Hrun by lia.
    injection Hrun as <-. exists dbuf. repeat split; try done; try lia.
    symmetry. by apply insert_id.
  - rewrite pack_loop_S in Hrun by lia. cbv zeta in Hrun.
    set (p := part md) in *.
    set (sz := fragment_size frags remainder p) in *.
    assert (Hsz : 0 <= sz <= MIKPACK_FRAG_SIZE).
    { unfold sz, fragment_size. destruct (_ && _); lia. }
    assert (Hoff : uint32_t (p * MIKPACK_REAL_FRAG_SIZE) = p * MIKPACK_REAL_FRAG_SIZE).
    { apply Z.mod_small. nia. }
    assert (Hszu : uint16_t sz = sz) by (apply Z.mod_small; lia).
    rewrite Hoff in Hrun.
    apply bind_Some in Hrun as (dst & w1 & Hld & Hrun).
    apply load_data_Some in Hld as [-> (h1 & Hh1 & <-)].
    rewrite Hh in Hh1. injection Hh1 as <-. rewrite Hd in Hrun. cbn [ptr_add] in Hrun.
    apply bind_Some in Hrun as (u1 & w1 & Hwr & Hrun).
    apply write_bytes_Some in Hwr as (b & o & buf & [= <- <-] & Hbuf & Ho & Hlen & ->).
    rewrite Hb in Hbuf. injection Hbuf as <-.
    rewrite serialize_length in Hlen.
    apply bind_Some in Hrun as (dst & w1 & Hld & Hrun).
    apply load_data_Some in Hld as [-> (h1 & Hh1 & <-)].
    cbn [handles] in Hh1. rewrite Hh in Hh1. injection Hh1 as <-.
    rewrite Hd in Hrun. cbn [ptr_add] in Hrun.
    apply bind_Some in Hrun as (u2 & w1 & Hcp & Hrun).
    apply memcpy_Some in Hcp as (bytes & Hrd & Hwr).
    apply read_bytes_Some in Hrd
      as (b & o & cur & [= <- <-] & Hcur & Hso & Hsn & Hslen & -> & _).
    cbn [buffers] in Hcur.
    cbn [set_size part size] in Hso, Hsn, Hslen, Hwr. fold p in Hso, Hslen, Hwr.
    rewrite Hszu in Hsn, Hslen, Hwr.
    set (payload := slice cur (os + p * MIKPACK_FRAG_SIZE) sz) in *.
    assert (Hpl : Z.of_nat (length payload) = sz) by (apply length_slice; lia).
    apply write_bytes_Some in Hwr as (b & o & buf & [= <- <-] & Hbuf & Ho2 & Hlen2 & ->).
    cbn [buffers handles ids] in *. rewrite lookup_insert_eq in Hbuf. injection Hbuf as <-.
    rewrite Hpl in Hlen2.
    rewrite length_splice in Hlen2 by (rewrite ?serialize_length; lia).
    rewrite insert_insert_eq in Hrun.
    set (hdr := mikmeta_serialize (set_size md sz)) in *.
    assert (Hhl : Z.of_nat (length hdr) = MIKMETA_SERIALIZED_OCTETS) by apply serialize_length.
    rewrite (Z.add_assoc od), <- Hhl, splice_app in Hrun by lia.
    set (md' := set_part _ _) in Hrun.
    assert (Hp' : part md' = p + 1).
    { unfold md'. cbn [set_part set_size part]. fold p. apply Z.mod_small. lia. }
    set (dbuf1 := splice dbuf _ _) in Hrun.
    assert (Hl1 : length dbuf1 = length dbuf).
    { unfold dbuf1. apply length_splice; [lia|].
      rewrite length_app, Nat2Z.inj_add. lia. }
    destruct u2.
    specialize (IH md' _ _ h dbuf1 Hrun). cbn [handles buffers ids] in IH.
    rewrite lookup_insert_eq, Hp' in IH.
    destruct IH as (dbuf' & Hh' & Hi' & Hb' & Hl' & Hpre & Hfr); [done | done | done | lia | lia |].
    rewrite insert_insert_eq in Hb'.
    replace (id md') with (id md) in Hfr by done.
    replace (type md') with (type md) in Hfr by done.
    assert (Hpre1 : forall k : nat,
      (k <= Z.to_nat (od + p * MIKPACK_REAL_FRAG_SIZE))%nat -> take k dbuf1 = take k dbuf).
    { intros k Hk. apply take_splice; lia. }
    exists dbuf'. split; [done|]. split; [done|]. split; [done|].
    split; [congruence|]. split.
    { intros k Hk. rewrite Hpre by lia. by apply Hpre1. }
    intros i Hi. cbv zeta. destruct (decide (i = p)) as [->|Hip].
    + fold sz. split; [lia|]. split; [lia|]. exists payload. split; [done|]. split.
      * rewrite (slice_prefix dbuf' dbuf1) by first [lia | apply Hpre; nia].
        unfold dbuf1.
        replace (MIKMETA_SERIALIZED_OCTETS + sz)
          with (Z.of_nat (length (hdr ++ payload)))
          by (rewrite length_app, Nat2Z.inj_add; lia).
        rewrite slice_splice; [| lia | rewrite length_app, Nat2Z.inj_add; lia].
        f_equal. unfold hdr, set_size. by rewrite Hszu.
      * intros sbuf Hne Hs. rewrite lookup_insert_ne, Hs in Hcur by done.
        injection Hcur as <-. by repeat split; try lia.
    + destruct (Hfr i ltac:(lia)) as (Hlo & Hhi & pl & Hpll & Hsl & Hsrc).
      split; [lia|]. split; [lia|]. exists pl. split; [done|]. split; [done|].
      intros sbuf Hne Hs. apply Hsrc; [done|]. by rewrite lookup_insert_ne.
Qed.

Lemma write_bytes_blocks p bs (w : world) u w' :
  write_bytes p bs w = Some (u, w') ->
  handles w' = handles w /\ ids w' = ids w /\
  forall b, length <$> (buffers w' !! b) = length <$> (buffers w !! b).
Proof.
  intros (b0 & o & buf & -> & Hbuf & Ho & Hlen & ->)%write_bytes_Some.
  repeat split. intros b. cbn [buffers].
  destruct (decide (b0 = b)) as [->|Hb].
  - rewrite lookup_insert_eq, Hbuf. cbn. by rewrite length_splice.
  - by rewrite lookup_insert_ne.
Qed.

Lemma pack_loop_blocks pk src frags remainder n :
  forall md (w : world) u w',
    pack_loop n pk src frags remainder md w = Some (u, w') ->
    handles w' = handles w /\ ids w' = ids w /\
    forall b, length <$> (buffers w' !! b) = length <$> (buffers w !! b).
Proof.
  induction n as [|n IH]; intros md w u w' Hrun.
  - pose proof (pack_loop_fuel _ _ _ _ _ _ _ Hrun) as Hdone.
    rewrite pack_loop_done in Hrun by done. by injection Hrun as <- <-.
  - destruct (Z.lt_ge_cases (part md) frags) as [Hlt|Hdone];
      [| rewrite pack_loop_done in Hrun by done; by injection Hrun as <- <-].
    rewrite pack_loop_S in Hrun by done. cbv zeta in Hrun.
    apply bind_Some in Hrun as (dst & w1 & Hld & Hrun).
    apply load_data_Some in Hld as [-> _].
    apply bind_Some in Hrun as (u1 & w1 & Hwr & Hrun).
    apply write_bytes_blocks in Hwr as (Hh1 & Hi1 & Hb1).
    apply bind_Some in Hrun as (dst2 & w2 & Hld & Hrun).
    apply load_data_Some in Hld as [-> _].
    apply bind_Some in Hrun as (u2 & w2 & Hcp & Hrun).
    apply memcpy_Some in Hcp as (bytes & _ & Hwr).
    apply write_bytes_blocks in Hwr as (Hh2 & Hi2 & Hb2).
    apply IH in Hrun as (Hh3 & Hi3 & Hb3).
    repeat split; [congruence | congruence |].
    intros b. by rewrite Hb3, Hb2, Hb1.
Qed.

Lemma mikpack_guard pack src len dest (w : world) :
  pack = None \/ src = NULL \/ dest = NULL \/ len = 0 ->
  mikpack pack src len dest w = Some (MIKERR_BAD_PTR, w).
Proof.
  unfold mikpack. destruct pack as [pk|]; [|done].
  intros [? | [-> | [-> | ->]]]; [done | done | |].
  - by rewrite orb_true_r.
  - by destruct (is_null src).
Qed.

Lemma mikpack_run pk src len dest (w : world) r w' :
  mikpack (Some pk) src len dest w = Some (r, w') ->
  src <> NULL -> dest <> NULL -> len <> 0 ->
  r = MIKERR_NONE /\
  exists h,
    handles w !! pk = Some h /\
    pack_loop (Z.to_nat (fst (fragments len))) pk src
      (fst (fragments len)) (snd (fragments len))
      {| id := fst (mikid (ids w)); type := MIK_DATA; part := 0; size := 0 |}
      {| handles := <[pk := {| ref_count := 0; data := dest |}]> (handles w);
         buffers := buffers w;
         ids := snd (mikid (ids w)) |}
    = Some (tt, w').
Proof.
  intros Hrun Hsrc Hdest Hlen. unfold mikpack in Hrun.
  destruct src as [|bs os]; [done|]. destruct dest as [|bd od]; [done|].
  destruct (Z.eqb_spec len 0) as [|_]; [done|]. cbn [is_null orb] in Hrun.
  apply bind_Some in Hrun as ([] & w1 & Hrc & Hrun).
  unfold store_ref_count in Hrc.
  destruct (handles w !! pk) as [h|] eqn:Hh; [|done]. injection Hrc as <-.
  apply bind_Some in Hrun as ([] & w2 & Hsd & Hrun).
  unfold store_data in Hsd. cbn [handles buffers ids] in Hsd.
  rewrite lookup_insert_eq in Hsd. injection Hsd as <-.
  cbn [ref_count] in Hrun. rewrite insert_insert_eq in Hrun.
  apply bind_Some in Hrun as (i & w3 & Hid & Hrun).
  unfold call_mikid in Hid. cbn [handles buffers ids] in Hid.
  destruct (mikid (ids w)) as [i0 g] eqn:Hg. injection Hid as <- <-.
  destruct (fragments len) as [frags remainder] eqn:Hfr.
  apply bind_Some in Hrun as ([] & w4 & Hloop & Hret).
  injection Hret as <- <-. split; [done|]. exists h. by split.
Qed.


Lemma write_bytes_ok b o bs buf (w : world) :
  buffers w !! b = Some buf ->
  0 <= o -> o + Z.of_nat (length bs) <= Z.of_nat (length buf) ->
  write_bytes (Ptr b o) bs w =
  Some (tt, {| handles := handles w;
               buffers := <[b := splice buf o bs]> (buffers w);
               ids := ids w |}).
Proof.
  intros Hb Ho Hlen. unfold write_bytes. rewrite Hb.
  by rewrite (proj2 (Z.leb_le _ _) Ho), (proj2 (Z.leb_le _ _) Hlen).
Qed.

Lemma memcpy_ok bd od bs os n dbuf sbuf (w : world) :
  bs <> bd -> buffers w !! bs = Some sbuf -> buffers w !! bd = Some dbuf ->
  0 <= os -> 0 <= n -> os + n <= Z.of_nat (length sbuf) ->
  0 <= od -> od + n <= Z.of_nat (length dbuf) ->
  memcpy (Ptr bd od) (Ptr bs os) n w =
  Some (tt, {| handles := handles w;
               buffers := <[bd := splice dbuf od (slice sbuf os n)]> (buffers w);
               ids := ids w |}).
Proof.
  intros Hne Hs Hd Hos Hn Hsl Hod Hdl. unfold memcpy, overlap.
  rewrite (proj2 (Pos.eqb_neq bd bs)) by done. cbn [andb].
  unfold bind, read_bytes. rewrite Hs.
  rewrite (proj2 (Z.leb_le _ _) Hos), (proj2 (Z.leb_le _ _) Hn),
    (proj2 (Z.leb_le _ _) Hsl). cbn [andb].
  apply write_bytes_ok; [done | done |]. rewrite length_slice; lia.
Qed.

Lemma pack_loop_returns pk bs os bd od frags remainder sbuf :
  bs <> bd -> 0 <= frags < 2 ^ 16 -> 0 <= remainder < MIKPACK_FRAG_SIZE ->
  forall n md (w : world) h dbuf,
    handles w !! pk = Some h -> data h = Ptr bd od ->
    buffers w !! bs = Some sbuf -> buffers w !! bd = Some dbuf ->
    0 <= part md -> part md + Z.of_nat n = frags ->
    (forall i, part md <= i < frags ->
       let sz := fragment_size frags remainder i in
       0 <= od + i * MIKPACK_REAL_FRAG_SIZE /\
       od + i * MIKPACK_REAL_FRAG_SIZE + MIKMETA_SERIALIZED_OCTETS + sz
         <= Z.of_nat (length dbuf) /\
       0 <= os + i * MIKPACK_FRAG_SIZE /\
       os + i * MIKPACK_FRAG_SIZE + sz <= Z.of_nat (length sbuf)) ->
    exists w', pack_loop n pk (Ptr bs os) frags remainder md w = Some (tt, w').
Proof.
  intros Hne Hfrags Hrem.
  pose proof frag_size_u16 as HF. pose proof real_frag_size_bounds as [HR HM].
  pose proof stride_no_overflow as Hov.
  induction n as [|n IH]; intros md w h dbuf Hh Hd Hs Hb Hp Hn Hin.
  - exists w. by rewrite pack_loop_done by lia.
  - rewrite pack_loop_S by lia. cbv zeta.
    set (p := part md) in *.
    set (sz := fragment_size frags remainder p).
    assert (Hsz : 0 <= sz <= MIKPACK_FRAG_SIZE).
    { unfold sz, fragment_size. destruct (_ && _); lia. }
    destruct (Hin p ltac:(lia)) as (Ho & Hdl & Hso & Hsl). fold sz in Hdl, Hsl.
    replace (uint32_t (p * MIKPACK_REAL_FRAG_SIZE)) with (p * MIKPACK_REAL_FRAG_SIZE)
      by (symmetry; apply Z.mod_small; nia).
    cbn [set_size part size]. fold p.
    replace (uint16_t sz) with sz by (symmetry; apply Z.mod_small; lia).
    set (md1 := set_size md sz).
    pose proof (serialize_length md1) as Hhl.
    unfold bind at 1. unfold load_data at 1. rewrite Hh, Hd. cbn [ptr_add].
    unfold bind at 1. rewrite (write_bytes_ok _ _ _ dbuf) by (done || lia).
    unfold bind at 1. unfold load_data at 1. cbn [handles]. rewrite Hh, Hd. cbn [ptr_add].
    unfold bind at 1.
    rewrite (memcpy_ok _ _ _ _ _ (splice dbuf (od + p * MIKPACK_REAL_FRAG_SIZE)
               (mikmeta_serialize md1)) sbuf);
      [ | done | cbn [buffers]; by rewrite lookup_insert_ne
        | cbn [buffers]; by rewrite lookup_insert_eq | lia | lia | lia | lia
        | rewrite length_splice; lia ].
    cbn [handles buffers ids]. rewrite insert_insert_eq.
    eapply (IH _ _ h); cbn [handles buffers ids set_part part].
    + done.
    + done.
    + by rewrite lookup_insert_ne.
    + by rewrite lookup_insert_eq.
    + apply Z.mod_pos_bound. lia.
    + unfold uint16_t. rewrite Z.mod_small; lia.
    + unfold uint16_t. rewrite Z.mod_small by lia. intros i Hi.
      rewrite !length_splice; try lia.
      * apply Hin. lia.
      * rewrite length_splice, length_slice; lia.
Qed.


Lemma pack_loop_dest n pk src frags remainder md (w : world) u w' h bd od :
  part md < frags ->
  pack_loop (S n) pk src frags remainder md w = Some (u, w') ->
  handles w !! pk = Some h -> data h = Ptr bd od ->
  is_Some (buffers w !! bd).
Proof.
  intros Hlt Hrun Hh Hd. rewrite pack_loop_S in Hrun by done. cbv zeta in Hrun.
  apply bind_Some in Hrun as (dst & w1 & Hld & Hrun).
  apply load_data_Some in Hld as [-> (h1 & Hh1 & <-)].
  rewrite Hh in Hh1. injection Hh1 as <-. rewrite Hd in Hrun.
  apply bind_Some in Hrun as (u1 & w1 & Hwr & _).
  apply write_bytes_Some in Hwr as (b & o & buf & [= <- _] & Hbuf & _).
  by exists buf.
Qed.

Lemma mikpack_layout pk bs os len bd od (w w' : world) r :
  mikpack (Some pk) (Ptr bs os) len (Ptr bd od) w = Some (r, w') ->
  len <> 0 ->
  ids w' = snd (mikid (ids w)) /\
  forall i, 0 <= i < fst (fragments len) ->
    exists dbuf dbuf',
      buffers w !! bd = Some dbuf /\ buffers w' !! bd = Some dbuf' /\
      length dbuf' = length dbuf /\
      let sz := fragment_size (fst (fragments len)) (snd (fragments len)) i in
      0 <= od + i * MIKPACK_REAL_FRAG_SIZE /\
      od + i * MIKPACK_REAL_FRAG_SIZE + MIKMETA_SERIALIZED_OCTETS + sz
        <= Z.of_nat (length dbuf) /\
      exists payload,
        Z.of_nat (length payload) = sz /\
        slice dbuf' (od + i * MIKPACK_REAL_FRAG_SIZE) (MIKMETA_SERIALIZED_OCTETS + sz) =
          mikmeta_serialize {| id := fst (mikid (ids w)); type := MIK_DATA;
                               part := i; size := sz |}
          ++ payload /\
        forall sbuf, bs <> bd -> buffers w !! bs = Some sbuf ->
          0 <= os + i * MIKPACK_FRAG_SIZE /\
          os + i * MIKPACK_FRAG_SIZE + sz <= Z.of_nat (length sbuf) /\
          payload = slice sbuf (os + i * MIKPACK_FRAG_SIZE) sz.
Proof.
  intros Hrun Hlen.
  apply mikpack_run in Hrun as (_ & h & Hh & Hloop); [| done | done | done].
  split.
  { by apply pack_loop_blocks in Hloop as (_ & -> & _). }
  intros i Hi.
  pose proof (fragments_range len) as Hfr.
  pose proof (Z.mod_pos_bound len MIKPACK_FRAG_SIZE frag_size_pos) as Hrem.
  rewrite <- fragments_snd in Hrem.
  assert (Hdest : is_Some (buffers w !! bd)).
  { destruct (Z.to_nat (fst (fragments len))) as [|n] eqn:Hn; [lia|].
    eapply (pack_loop_dest _ _ _ _ _ _ _ _ _ {| ref_count := 0; data := Ptr bd od |})
      in Hloop; [done | cbn [part]; lia
                 | cbn [handles]; by rewrite lookup_insert_eq | done]. }
  destruct Hdest as [dbuf Hb].
  eapply (pack_loop_inv pk bs os bd od _ _ Hfr Hrem _ _ _ _
            {| ref_count := 0; data := Ptr bd od |} dbuf) in Hloop
    as (dbuf' & _ & _ & Hb' & Hl' & _ & Hfrag);
    [ | cbn [handles]; by rewrite lookup_insert_eq | done | done
      | done | cbn [part]; lia ].
  cbn [buffers] in Hb'. exists dbuf, dbuf'. split; [done|].
  split; [by rewrite Hb', lookup_insert_eq|]. split; [done|]. by apply Hfrag.
Qed.

Lemma mikpack_extent_needed pk bs os len bd od (w w' : world) r :
  mikpack (Some pk) (Ptr bs os) len (Ptr bd od) w = Some (r, w') ->
  len <> 0 -> 0 < fst (fragments len) ->
  exists dbuf,
    buffers w !! bd = Some dbuf /\
    od + pack_extent len <= Z.of_nat (length dbuf).
Proof.
  intros Hrun Hlen Hpos.
  destruct (mikpack_layout _ _ _ _ _ _ _ _ _ Hrun Hlen) as (_ & Hfrag).
  assert (Hlast : 0 <= fst (fragments len) - 1 < fst (fragments len)) by lia.
  destruct (Hfrag _ Hlast) as (dbuf & dbuf' & Hb & _ & _ & _ & Hbound & _).
  exists dbuf. split; [done|]. unfold pack_extent.
  destruct (fragments len) as [frags remainder]. cbn [fst snd] in *.
  destruct (Z.eqb_spec frags 0) as [|_]; lia.
Qed.

Lemma mikpack_returns pk bs os len bd od (w : world) h sbuf dbuf :
  handles w !! pk = Some h -> bs <> bd ->
  buffers w !! bs = Some sbuf -> buffers w !! bd = Some dbuf ->
  0 < len ->
  0 <= os -> os + len <= Z.of_nat (length sbuf) ->
  0 <= od -> od + pack_extent len <= Z.of_nat (length dbuf) ->
  exists w', mikpack (Some pk) (Ptr bs os) len (Ptr bd od) w = Some (MIKERR_NONE, w').
Proof.
  intros Hh Hne Hs Hb Hlen Hos Hsl Hod Hdl.
  pose proof frag_size_pos as HF. pose proof real_frag_size_bounds as [HR HM].
  unfold mikpack. cbn [is_null orb].
  destruct (Z.eqb_spec len 0) as [|_]; [lia|]. cbn [orb].
  unfold bind at 1. unfold store_ref_count. rewrite Hh.
  unfold bind at 1. unfold store_data. cbn [handles buffers ids ref_count].
  rewrite lookup_insert_eq, insert_insert_eq.
  unfold bind at 1. unfold call_mikid. cbn [handles buffers ids].
  destruct (mikid (ids w)) as [i0 g].
  pose proof (fragments_range len) as Hfr.
  pose proof (Z.mod_pos_bound len MIKPACK_FRAG_SIZE HF) as Hrem.
  rewrite <- fragments_snd in Hrem.
  pose proof (fragment_source_bound len) as Hsrc.
  pose proof (fragment_extent_bound len) as Hext.
  destruct (fragments len) as [frags remainder]. cbn [fst snd] in *.
  edestruct (pack_loop_returns pk bs os bd od frags remainder sbuf Hne Hfr Hrem
               (Z.to_nat frags)
               {| id := i0; type := MIK_DATA; part := 0; size := 0 |}
               {| handles := <[pk := {| ref_count := 0; data := Ptr bd od |}]> (handles w);
                  buffers := buffers w; ids := g |}
               {| ref_count := 0; data := Ptr bd od |} dbuf) as (w' & Hloop).
  - cbn [handles]. by rewrite lookup_insert_eq.
  - done.
  - done.
  - done.
  - done.
  - cbn [part]. lia.
  - cbn [part]. intros i Hi. cbv zeta.
    assert (Hlen0 : 0 <= len) by lia.
    specialize (Hsrc i Hlen0 Hi). specialize (Hext i Hi).
    repeat split; nia.
  - exists w'. unfold bind. cbn [ref_count]. by rewrite Hloop.
Qed.


Lemma slice_shorter buf o n m :
  0 <= n -> 0 <= m -> slice buf o n = take (Z.to_nat n) (slice buf o (n + m)).
Proof.
  intros Hn Hm. unfold slice. rewrite take_take. f_equal. lia.
Qed.

Lemma mikpack_blocks pack src len dest (w : world) r w' :
  mikpack pack src len dest w = Some (r, w') -> same_blocks w w'.
Proof.
  intros Hrun.
  destruct (decide (pack = None \/ src = NULL \/ dest = NULL \/ len = 0)) as [Hbad|Hgood].
  - rewrite mikpack_guard in Hrun by done. by injection Hrun as <- <-.
  - destruct pack as [pk|]; [|tauto].
    apply mikpack_run in Hrun as (_ & h & Hh & Hloop); [| tauto | tauto | tauto].
    apply pack_loop_blocks in Hloop as (Hh' & _ & Hb'). cbn [handles buffers] in *.
    split; [|done]. rewrite Hh', dom_insert_L.
    apply subseteq_union_1_L, singleton_subseteq_l, elem_of_dom. by exists h.
Qed.

Lemma mikpack_code pack src len dest (w : world) r w' :
  mikpack pack src len dest w = Some (r, w') ->
  (r = MIKERR_BAD_PTR /\ (pack = None \/ src = NULL \/ dest = NULL \/ len = 0)) \/
  (r = MIKERR_NONE /\ ~ (pack = None \/ src = NULL \/ dest = NULL \/ len = 0)).
Proof.
  intros Hrun.
  destruct (decide (pack = None \/ src = NULL \/ dest = NULL \/ len = 0)) as [Hbad|Hgood].
  - rewrite mikpack_guard in Hrun by done. injection Hrun as <- <-. by left.
  - destruct pack as [pk|]; [|tauto].
    apply mikpack_run in Hrun as (-> & _); [| tauto | tauto | tauto]. by right.
Qed.

End PackerFacts.

(** * The claims of the specification *)

(** The instance of the concrete scenario meets the assumptions. *)
Lemma scenario_ok : MikDefsOk scenario.
Proof. by split; cbn; try lia. Qed.

(** In it, packing [payload9] into a destination of 29 octets succeeds
    and fills the destination with [scenario_packed]. *)
Lemma scenario_run :
  exists w',
    @mikpack scenario (Some 1%positive) (Ptr 2%positive 0) 9 (Ptr 3%positive 0)
      (scenario_world payload9 29) = Some (0, w').
Proof. eexists. vm_compute. reflexivity. Qed.

Lemma scenario_run_packed (w' : world) :
  @mikpack scenario (Some 1%positive) (Ptr 2%positive 0) 9 (Ptr 3%positive 0)
    (scenario_world payload9 29) = Some (0, w') ->
  buffers w' !! 3%positive = Some scenario_packed.
Proof.
  intros Hrun. vm_compute in Hrun. injection Hrun as <-. by vm_compute.
Qed.

(** ** The estimator *)

(** C6: for an empty payload the estimator returns the size of one
    header-only semi-fragment, that is [MIKFRAG_HEADER_SIZE], with no
    payload octet. *)
Theorem mikpack_mem_est_zero (D : MikDefs) (Hok : MikDefsOk D) :
  mikpack_mem_est 0 = MIKFRAG_HEADER_SIZE /\
  mikpack_mem_est 0 = semi_fragment_data_size 0 /\
  fragments 0 = (0, 0).
Proof.
  pose proof header_size_nonneg as HH. pose proof real_frag_size as HR.
  pose proof header_size_meta as HM. pose proof stride_no_overflow as Hov.
  pose proof frag_size_pos as HF.
  assert (Hfr : fragments 0 = (0, 0)).
  { unfold fragments. by rewrite Z.div_0_l, Z.mod_0_l by lia. }
  assert (Hsemi : semi_fragment_data_size 0 = MIKFRAG_HEADER_SIZE).
  { unfold semi_fragment_data_size, size_t. apply Z.mod_small. lia. }
  assert (Hest : mikpack_mem_est 0 = MIKFRAG_HEADER_SIZE).
  { unfold mikpack_mem_est. rewrite Hfr. cbn [Z.eqb negb orb].
    unfold fragment_data_size. rewrite Z.mul_0_l, Hsemi.
    unfold size_t. rewrite (Z.mod_small 0) by lia. apply Z.mod_small. lia. }
  by rewrite Hest, Hsemi.
Qed.

Lemma mikpack_mem_est_zero_scenario :
  @mikpack_mem_est scenario 0 = 4 /\
  @mikpack_mem_est scenario 0 = @semi_fragment_data_size scenario 0 /\
  @fragments scenario 0 = (0, 0).
Proof. exact (mikpack_mem_est_zero scenario scenario_ok). Defined.

(** ** The fragment counter *)

(** C3, as the code has it: [fragments] counts no fragment for an empty
    payload; for a payload with fewer than [2 ^ 16] fragments it counts
    [len / MIKPACK_FRAG_SIZE] when [len] is an exact multiple of the
    per-fragment payload size, and one more otherwise. *)
Theorem fragments_count (D : MikDefs) (Hok : MikDefsOk D) (len : Z) :
  0 <= len -> ceil_fragments len < 2 ^ 16 ->
  (len = 0 -> fst (fragments len) = 0) /\
  (len mod MIKPACK_FRAG_SIZE = 0 -> fst (fragments len) = len / MIKPACK_FRAG_SIZE) /\
  (len mod MIKPACK_FRAG_SIZE <> 0 -> fst (fragments len) = len / MIKPACK_FRAG_SIZE + 1).
Proof.
  intros Hlen Hsmall. pose proof (ceil_fragments_nonneg len Hlen) as Hnn.
  assert (Hfst : fst (fragments len) = ceil_fragments len).
  { rewrite fragments_fst. apply Z.mod_small. lia. }
  rewrite Hfst, ceil_fragments_eq. repeat split.
  - intros ->. by rewrite Z.div_0_l, Z.mod_0_l by (pose proof frag_size_pos; lia).
  - intros ->. cbn. lia.
  - intros Hnz. by destruct (Z.eqb_spec (len mod MIKPACK_FRAG_SIZE) 0).
Qed.

Lemma fragments_count_scenario :
  (0 <= 9 /\ @ceil_fragments scenario 9 < 2 ^ 16) /\
  fst (@fragments scenario 9) = 9 / 2 + 1 /\
  fst (@fragments scenario 8) = 8 / 2 /\
  fst (@fragments scenario 0) = 0.
Proof.
  split; [by vm_compute|]. split; [|split].
  - apply (fragments_count scenario scenario_ok 9); by vm_compute.
  - apply (fragments_count scenario scenario_ok 8); by vm_compute.
  - apply (fragments_count scenario scenario_ok 0); by vm_compute.
Defined.

Lemma fragments_count_zero_not_one :
  fst (@fragments scenario 0) = 0 /\
  @spec_fragment_count scenario 0 = 1 /\
  fst (@fragments scenario 0) <> @spec_fragment_count scenario 0 /\
  fst (@fragments scenario 131072) = 0 /\
  @spec_fragment_count scenario 131072 = 65536.
Proof. by vm_compute. Qed.

(** C10: the fragment count is the rounded-up quotient reduced modulo
    [2 ^ 16], and the estimator is computed from that reduced count; a
    payload of at least [2 ^ 16 * MIKPACK_FRAG_SIZE] octets makes the
    count fall below the number of fragments the payload has, and
    [mikpack] still returns [MIKERR_NONE] for it. *)
Theorem fragments_wraps (D : MikDefs) (Hok : MikDefsOk D) (len : Z) :
  0 <= len ->
  fst (fragments len) = ceil_fragments len mod 2 ^ 16 /\
  mikpack_mem_est len =
    (let count := ceil_fragments len mod 2 ^ 16 in
     if negb (len mod MIKPACK_FRAG_SIZE =? 0) || (len =? 0)
     then size_t (fragment_data_size count
                  + semi_fragment_data_size (len mod MIKPACK_FRAG_SIZE))
     else fragment_data_size count) /\
  (2 ^ 16 * MIKPACK_FRAG_SIZE <= len ->
   fst (fragments len) < ceil_fragments len /\
   forall pk bs os bd od (w : world) h sbuf dbuf,
     handles w !! pk = Some h -> bs <> bd ->
     buffers w !! bs = Some sbuf -> buffers w !! bd = Some dbuf ->
     0 <= os -> os + len <= Z.of_nat (length sbuf) ->
     0 <= od -> od + pack_extent len <= Z.of_nat (length dbuf) ->
     exists w',
       mikpack (Some pk) (Ptr bs os) len (Ptr bd od) w = Some (MIKERR_NONE, w')).
Proof.
  intros Hlen. pose proof frag_size_pos as HF. split; [apply fragments_fst|]. split.
  - unfold mikpack_mem_est. rewrite <- fragments_fst.
    pose proof (fragments_snd len) as Hsnd.
    destruct (fragments len) as [frags remainder]. cbn [fst snd] in *.
    by rewrite Hsnd.
  - intros Hbig. split.
    + pose proof (fragments_range len) as Hr.
      assert (2 ^ 16 <= ceil_fragments len); [|lia].
      unfold ceil_fragments. apply Z.div_le_lower_bound; lia.
    + intros pk bs os bd od w h sbuf dbuf Hh Hne Hs Hb Hos Hsl Hod Hdl.
      eapply mikpack_returns; eauto. lia.
Qed.

Lemma fragments_wraps_scenario :
  0 <= 131073 /\
  fst (@fragments scenario 131073) = 1 /\
  @ceil_fragments scenario 131073 = 65537 /\
  fst (@fragments scenario 131073) < @ceil_fragments scenario 131073 /\
  exists w',
    @mikpack scenario (Some 1%positive) (Ptr 2%positive 0) 131073 (Ptr 3%positive 0)
      (scenario_world (repeat x00 (Z.to_nat 131073)) 5) = Some (0, w').
Proof.
  assert (Hlen : 0 <= 131073) by lia.
  destruct (fragments_wraps scenario scenario_ok 131073 Hlen) as (Hfst & _ & Hbig).
  destruct (Hbig ltac:(by vm_compute)) as [Hlt Hrun].
  split; [done|]. split; [by rewrite Hfst|]. split; [by vm_compute|]. split; [done|].
  apply (Hrun 1%positive 2%positive 0 3%positive 0
           (scenario_world (repeat x00 (Z.to_nat 131073)) 5)
           {| ref_count := 7; data := NULL |}
           (repeat x00 (Z.to_nat 131073)) (repeat x00 5)).
  - reflexivity.
  - done.
  - reflexivity.
  - reflexivity.
  - lia.
  - rewrite repeat_length. lia.
  - lia.
  - by vm_compute.
Defined.

(** ** The packer: arguments and result *)

(** C4: [mikpack] returns [MIKERR_BAD_PTR] exactly when the handle, the
    source or the destination is null or [len] is zero, and then the state
    it returns is the state it was given: neither the handle nor the
    destination is written. *)
Theorem mikpack_bad_argument (D : MikDefs) (Hok : MikDefsOk D)
    (pack : option block) (src : ptr) (len : Z) (dest : ptr) (w : world) :
  (pack = None \/ src = NULL \/ dest = NULL \/ len = 0 ->
   mikpack pack src len dest w = Some (MIKERR_BAD_PTR, w)) /\
  (forall r w', mikpack pack src len dest w = Some (r, w') ->
     r = MIKERR_BAD_PTR ->
     (pack = None \/ src = NULL \/ dest = NULL \/ len = 0) /\ w' = w).
Proof.
  split; [apply mikpack_guard|]. intros r w' Hrun ->.
  destruct (mikpack_code _ _ _ _ _ _ _ Hrun) as [[_ Hbad]|[Hnone _]].
  - split; [done|]. rewrite mikpack_guard in Hrun by done. by injection Hrun.
  - by destruct codes_differ.
Qed.

Lemma mikpack_bad_argument_scenario :
  @mikpack scenario (Some 1%positive) (Ptr 2%positive 0) 0 (Ptr 3%positive 0)
    (scenario_world payload9 29) = Some (-1, scenario_world payload9 29) /\
  @mikpack scenario (Some 1%positive) NULL 9 (Ptr 3%positive 0)
    (scenario_world payload9 29) = Some (-1, scenario_world payload9 29).
Proof.
  split.
  - apply (mikpack_bad_argument scenario scenario_ok). by repeat right.
  - apply (mikpack_bad_argument scenario scenario_ok). by right; left.
Defined.

(** C9: [mikpack] allocates nothing, and the code it returns is one of
    two: [MIKERR_BAD_PTR] when an argument is null or [len] is zero,
    [MIKERR_NONE] otherwise; no other code is returned. *)
Theorem mikpack_result (D : MikDefs) (Hok : MikDefsOk D)
    (pack : option block) (src : ptr) (len : Z) (dest : ptr) (w w' : world) (r : Z) :
  mikpack pack src len dest w = Some (r, w') ->
  same_blocks w w' /\
  (r = MIKERR_NONE \/ r = MIKERR_BAD_PTR) /\
  (r = MIKERR_BAD_PTR <-> pack = None \/ src = NULL \/ dest = NULL \/ len = 0) /\
  (r = MIKERR_NONE <-> ~ (pack = None \/ src = NULL \/ dest = NULL \/ len = 0)).
Proof.
  intros Hrun. split; [by eapply mikpack_blocks|].
  pose proof codes_differ as Hdiff.
  destruct (mikpack_code _ _ _ _ _ _ _ Hrun) as [[-> Hbad]|[-> Hgood]].
  - split; [by right|]. split; [done|]. split; [congruence | tauto].
  - split; [by left|]. split; [|done]. split; [congruence | tauto].
Qed.

(** C7: after a successful call the handle has a reference count of zero
    and its data pointer is the destination it was given; no storage was
    allocated for it. *)
Theorem mikpack_binds_handle (D : MikDefs) (Hok : MikDefsOk D)
    (pack : option block) (src : ptr) (len : Z) (dest : ptr) (w w' : world) :
  mikpack pack src len dest w = Some (MIKERR_NONE, w') ->
  exists pk,
    pack = Some pk /\
    handles w' !! pk = Some {| ref_count := 0; data := dest |} /\
    same_blocks w w'.
Proof.
  intros Hrun. pose proof (mikpack_blocks _ _ _ _ _ _ _ Hrun) as Hsame.
  destruct (mikpack_code _ _ _ _ _ _ _ Hrun) as [[Heq _]|[_ Hgood]].
  { by destruct codes_differ. }
  destruct pack as [pk|]; [|tauto]. exists pk. split; [done|].
  apply mikpack_run in Hrun as (_ & h & Hh & Hloop); [| tauto | tauto | tauto].
  apply pack_loop_blocks in Hloop as (Hh' & _). cbn [handles] in Hh'.
  split; [|done]. rewrite Hh'. apply lookup_insert_eq.
Qed.

Lemma mikpack_result_scenario :
  exists w',
    @mikpack scenario (Some 1%positive) (Ptr 2%positive 0) 9 (Ptr 3%positive 0)
      (scenario_world payload9 29) = Some (0, w') /\
    same_blocks (scenario_world payload9 29) w' /\
    (0 = @MIKERR_NONE scenario \/ 0 = @MIKERR_BAD_PTR scenario).
Proof.
  destruct scenario_run as [w' Hrun]. exists w'. split; [exact Hrun|].
  destruct (mikpack_result scenario scenario_ok _ _ _ _ _ _ _ Hrun) as (Hsame & Hcode & _).
  by split.
Defined.

Lemma mikpack_binds_handle_scenario :
  exists w',
    @mikpack scenario (Some 1%positive) (Ptr 2%positive 0) 9 (Ptr 3%positive 0)
      (scenario_world payload9 29) = Some (0, w') /\
    exists pk,
      Some 1%positive = Some pk /\
      handles w' !! pk = Some {| ref_count := 0; data := Ptr 3%positive 0 |} /\
      same_blocks (scenario_world payload9 29) w'.
Proof.
  destruct scenario_run as [w' Hrun]. exists w'. split; [exact Hrun|].
  exact (mikpack_binds_handle scenario scenario_ok _ _ _ _ _ _ Hrun).
Defined.

(** ** The packer: what it writes *)

(** C5: after a successful call, fragment [i] lies at offset
    [i * MIKPACK_REAL_FRAG_SIZE] of the destination as its header
    immediately followed by its payload; every fragment but the last
    carries [MIKPACK_FRAG_SIZE] octets, the last carries
    [len mod MIKPACK_FRAG_SIZE] when that is not zero and
    [MIKPACK_FRAG_SIZE] otherwise; the payload is the matching run of the
    source when source and destination are distinct buffers. *)
Theorem mikpack_fragment_layout (D : MikDefs) (Hok : MikDefsOk D)
    (pack : option block) (src : ptr) (len : Z) (dest : ptr) (w w' : world) :
  mikpack pack src len dest w = Some (MIKERR_NONE, w') ->
  exists bs os bd od,
    src = Ptr bs os /\ dest = Ptr bd od /\
    forall i, 0 <= i < fst (fragments len) ->
      exists dbuf' sz payload,
        buffers w' !! bd = Some dbuf' /\
        (i < fst (fragments len) - 1 -> sz = MIKPACK_FRAG_SIZE) /\
        (i = fst (fragments len) - 1 ->
         sz = if len mod MIKPACK_FRAG_SIZE =? 0 then MIKPACK_FRAG_SIZE
              else len mod MIKPACK_FRAG_SIZE) /\
        Z.of_nat (length payload) = sz /\
        slice dbuf' (od + i * MIKPACK_REAL_FRAG_SIZE) (MIKMETA_SERIALIZED_OCTETS + sz) =
          mikmeta_serialize {| id := fst (mikid (ids w)); type := MIK_DATA;
                               part := i; size := sz |}
          ++ payload /\
        forall sbuf, bs <> bd -> buffers w !! bs = Some sbuf ->
          payload = slice sbuf (os + i * MIKPACK_FRAG_SIZE) sz.
Proof.
  intros Hrun.
  destruct (mikpack_code _ _ _ _ _ _ _ Hrun) as [[Heq _]|[_ Hgood]].
  { by destruct codes_differ. }
  destruct pack as [pk|]; [|tauto]. destruct src as [|bs os]; [tauto|].
  destruct dest as [|bd od]; [tauto|].
  assert (Hlen : len <> 0) by tauto.
  exists bs, os, bd, od. split; [done|]. split; [done|]. intros i Hi.
  destruct (mikpack_layout _ _ _ _ _ _ _ _ _ Hrun Hlen) as (_ & Hfrag).
  destruct (Hfrag i Hi) as (dbuf & dbuf' & _ & Hb' & _ & _ & _ & payload & Hpl & Hsl & Hsrc).
  exists dbuf', (fragment_size (fst (fragments len)) (snd (fragments len)) i), payload.
  split; [done|]. split; [|split].
  - intros Hnl. unfold fragment_size.
    by destruct (Z.eqb_spec i (fst (fragments len) - 1)); [lia|].
  - intros ->. unfold fragment_size. rewrite Z.eqb_refl, fragments_snd.
    by destruct (len mod MIKPACK_FRAG_SIZE =? 0).
  - split; [done|]. split; [done|]. intros sbuf Hne Hs. by apply Hsrc.
Qed.

Lemma mikpack_fragment_layout_scenario :
  exists w',
    @mikpack scenario (Some 1%positive) (Ptr 2%positive 0) 9 (Ptr 3%positive 0)
      (scenario_world payload9 29) = Some (0, w') /\
    forall i, 0 <= i < 5 ->
      exists dbuf' sz payload,
        buffers w' !! 3%positive = Some dbuf' /\
        (i < 4 -> sz = 2) /\ (i = 4 -> sz = 1) /\
        Z.of_nat (length payload) = sz /\
        slice dbuf' (i * 6) (4 + sz) =
          serialize4 {| id := 40; type := MIK_DATA; part := i; size := sz |} ++ payload /\
        payload = slice payload9 (i * 2) sz.
Proof.
  destruct scenario_run as [w' Hrun]. exists w'. split; [exact Hrun|].
  destruct (mikpack_fragment_layout scenario scenario_ok _ _ _ _ _ _ Hrun)
    as (bs & os & bd & od & [= <- <-] & [= <- <-] & Hfrag).
  intros i Hi. destruct (Hfrag i Hi) as (dbuf' & sz & payload & Hb & Hfull & Hlast & Hpl & Hsl & Hsrc).
  exists dbuf', sz, payload.
  split; [exact Hb|]. split; [exact Hfull|]. split; [exact Hlast|].
  split; [exact Hpl|]. split; [exact Hsl|]. by apply Hsrc.
Defined.

(** C8: every header a successful call writes carries the identifier the
    one call of [mikid] returned and the type [MIK_DATA], whatever the
    payload; the generator has advanced by exactly that call. *)
Theorem mikpack_one_identifier (D : MikDefs) (Hok : MikDefsOk D)
    (pack : option block) (src : ptr) (len : Z) (dest : ptr) (w w' : world) :
  mikpack pack src len dest w = Some (MIKERR_NONE, w') ->
  ids w' = snd (mikid (ids w)) /\
  exists bd od,
    dest = Ptr bd od /\
    forall i, 0 <= i < fst (fragments len) ->
      exists dbuf' md,
        buffers w' !! bd = Some dbuf' /\
        id md = fst (mikid (ids w)) /\ type md = MIK_DATA /\ part md = i /\
        slice dbuf' (od + i * MIKPACK_REAL_FRAG_SIZE) MIKMETA_SERIALIZED_OCTETS =
          mikmeta_serialize md.
Proof.
  intros Hrun.
  destruct (mikpack_code _ _ _ _ _ _ _ Hrun) as [[Heq _]|[_ Hgood]].
  { by destruct codes_differ. }
  destruct pack as [pk|]; [|tauto]. destruct src as [|bs os]; [tauto|].
  destruct dest as [|bd od]; [tauto|].
  assert (Hlen : len <> 0) by tauto.
  destruct (mikpack_layout _ _ _ _ _ _ _ _ _ Hrun Hlen) as (Hids & Hfrag).
  split; [done|]. exists bd, od. split; [done|]. intros i Hi.
  destruct (Hfrag i Hi) as (dbuf & dbuf' & _ & Hb' & _ & _ & _ & payload & Hpl & Hsl & _).
  cbv zeta in Hsl, Hpl.
  set (sz := fragment_size _ _ i) in *.
  exists dbuf', {| id := fst (mikid (ids w)); type := MIK_DATA; part := i; size := sz |}.
  repeat split; try done.
  rewrite (slice_shorter _ _ _ sz), Hsl;
    [| pose proof real_frag_size_bounds; lia | lia].
  apply take_app_length'. pose proof (serialize_length
    {| id := fst (mikid (ids w)); type := MIK_DATA; part := i; size := sz |}). lia.
Qed.

Lemma mikpack_one_identifier_scenario :
  exists w',
    @mikpack scenario (Some 1%positive) (Ptr 2%positive 0) 9 (Ptr 3%positive 0)
      (scenario_world payload9 29) = Some (0, w') /\
    ids w' = 41 /\
    forall i, 0 <= i < 5 ->
      exists dbuf' md,
        buffers w' !! 3%positive = Some dbuf' /\
        id md = 40 /\ type md = MIK_DATA /\ part md = i /\
        slice dbuf' (i * 6) 4 = serialize4 md.
Proof.
  destruct scenario_run as [w' Hrun]. exists w'. split; [exact Hrun|].
  destruct (mikpack_one_identifier scenario scenario_ok _ _ _ _ _ _ Hrun)
    as (Hids & bd & od & [= <- <-] & Hfrag).
  split; [exact Hids|]. exact Hfrag.
Defined.

(** ** The estimator against the packer *)

(** C1, where it fails: for a payload of [k] full fragments the estimator
    returns the payload octets alone, [k * MIKPACK_FRAG_SIZE], whereas a
    successful call of [mikpack] reaches [k] headers further into the
    destination. *)
Theorem mem_est_misses_headers (D : MikDefs) (Hok : MikDefsOk D)
    (k : Z) (pk : block) (src : ptr) (bd : block) (od : Z) (w w' : world) :
  0 < k < 2 ^ 16 ->
  mikpack (Some pk) src (k * MIKPACK_FRAG_SIZE) (Ptr bd od) w = Some (MIKERR_NONE, w') ->
  mikpack_mem_est (k * MIKPACK_FRAG_SIZE) = k * MIKPACK_FRAG_SIZE /\
  pack_extent (k * MIKPACK_FRAG_SIZE)
    = mikpack_mem_est (k * MIKPACK_FRAG_SIZE) + k * MIKFRAG_HEADER_SIZE /\
  exists dbuf,
    buffers w !! bd = Some dbuf /\
    od + mikpack_mem_est (k * MIKPACK_FRAG_SIZE) + k * MIKFRAG_HEADER_SIZE
      <= Z.of_nat (length dbuf).
Proof.
  intros Hk Hrun. pose proof frag_size_u16 as HF.
  pose proof header_size_meta as HM. pose proof real_frag_size as HR.
  assert (Hfr : fragments (k * MIKPACK_FRAG_SIZE) = (k, 0)).
  { unfold fragments. rewrite Z.div_mul, Z.mod_mul by lia. cbn [Z.eqb negb].
    unfold uint16_t. by rewrite Z.mod_small by lia. }
  assert (Hest : mikpack_mem_est (k * MIKPACK_FRAG_SIZE) = k * MIKPACK_FRAG_SIZE).
  { unfold mikpack_mem_est. rewrite Hfr. cbn [Z.eqb negb orb].
    destruct (Z.eqb_spec (k * MIKPACK_FRAG_SIZE) 0) as [|_]; [nia|].
    unfold fragment_data_size, size_t. apply Z.mod_small. nia. }
  assert (Hext : pack_extent (k * MIKPACK_FRAG_SIZE)
                 = k * MIKPACK_FRAG_SIZE + k * MIKFRAG_HEADER_SIZE).
  { unfold pack_extent. rewrite Hfr.
    destruct (Z.eqb_spec k 0) as [|_]; [lia|].
    unfold fragment_size. rewrite Z.eqb_refl. cbn [Z.eqb negb andb]. lia. }
  rewrite Hest. split; [done|]. split; [done|].
  destruct src as [|bs os].
  { rewrite mikpack_guard in Hrun by tauto. injection Hrun as Hc _.
    by destruct codes_differ. }
  destruct (mikpack_extent_needed _ _ _ _ _ _ _ _ _ Hrun) as (dbuf & Hb & Hbound).
  - nia.
  - rewrite Hfr. cbn [fst]. lia.
  - exists dbuf. split; [done|]. lia.
Qed.

Lemma mem_est_misses_headers_scenario :
  0 < 1 < 2 ^ 16 /\
  (exists w',
     @mikpack scenario (Some 1%positive) (Ptr 2%positive 0) (1 * 2) (Ptr 3%positive 0)
       (scenario_world [x61; x62] 6) = Some (0, w')) /\
  @mikpack scenario (Some 1%positive) (Ptr 2%positive 0) (1 * 2) (Ptr 3%positive 0)
    (scenario_world [x61; x62] (Z.to_nat (@mikpack_mem_est scenario 2))) = None /\
  @mikpack_mem_est scenario (1 * 2) = 1 * 2 /\
  @pack_extent scenario (1 * 2) = @mikpack_mem_est scenario (1 * 2) + 1 * 4.
Proof.
  assert (Hk : 0 < 1 < 2 ^ 16) by lia.
  assert (Hrun : exists w',
     @mikpack scenario (Some 1%positive) (Ptr 2%positive 0) (1 * 2) (Ptr 3%positive 0)
       (scenario_world [x61; x62] 6) = Some (0, w')).
  { eexists. vm_compute. reflexivity. }
  split; [exact Hk|]. split; [exact Hrun|]. split; [by vm_compute|].
  destruct Hrun as [w' Hrun].
  destruct (mem_est_misses_headers scenario scenario_ok 1 _ _ _ _ _ _ Hk Hrun)
    as (Hest & Hext & _).
  split; [exact Hest | exact Hext].
Defined.

(** C2, where it fails: with two octets per fragment a payload of nine
    octets is packed as five fragments of [2; 2; 2; 2; 1] octets with
    part indices 0 to 4, in a buffer of [9 + 5 * MIKFRAG_HEADER_SIZE]
    octets; the estimator returns [11 + MIKFRAG_HEADER_SIZE], which is
    never that length. *)
Theorem nine_octets_two_per_fragment (D : MikDefs) (Hok : MikDefsOk D)
    (pk bs : block) (os : Z) (bd : block) (od : Z) (w w' : world) (sbuf : list byte) :
  MIKPACK_FRAG_SIZE = 2 ->
  mikpack (Some pk) (Ptr bs os) 9 (Ptr bd od) w = Some (MIKERR_NONE, w') ->
  bs <> bd -> buffers w !! bs = Some sbuf ->
  fragments 9 = (5, 1) /\
  (exists dbuf dbuf',
     buffers w !! bd = Some dbuf /\ buffers w' !! bd = Some dbuf' /\
     length dbuf' = length dbuf /\
     od + (9 + 5 * MIKFRAG_HEADER_SIZE) <= Z.of_nat (length dbuf) /\
     Forall (fun '(i, sz) =>
               slice dbuf' (od + i * (2 + MIKFRAG_HEADER_SIZE)) (MIKFRAG_HEADER_SIZE + sz) =
               mikmeta_serialize {| id := fst (mikid (ids w)); type := MIK_DATA;
                                    part := i; size := sz |}
               ++ slice sbuf (os + i * 2) sz)
            [(0, 2); (1, 2); (2, 2); (3, 2); (4, 1)]) /\
  mikpack_mem_est 9 = 11 + MIKFRAG_HEADER_SIZE /\
  pack_extent 9 = 9 + 5 * MIKFRAG_HEADER_SIZE /\
  mikpack_mem_est 9 <> pack_extent 9.
Proof.
  intros HF2 Hrun Hne Hs.
  pose proof header_size_nonneg as HH. pose proof header_size_meta as HM.
  pose proof real_frag_size as HR. pose proof stride_no_overflow as Hov.
  assert (Hfr : fragments 9 = (5, 1)).
  { unfold fragments. by rewrite HF2. }
  assert (Hest : mikpack_mem_est 9 = 11 + MIKFRAG_HEADER_SIZE).
  { unfold mikpack_mem_est. rewrite Hfr. cbn [Z.eqb negb orb].
    unfold fragment_data_size, semi_fragment_data_size, size_t. rewrite HF2.
    rewrite (Z.mod_small (5 * 2)), (Z.mod_small (1 + _)) by lia.
    rewrite Z.mod_small; lia. }
  assert (Hext : pack_extent 9 = 9 + 5 * MIKFRAG_HEADER_SIZE).
  { unfold pack_extent. rewrite Hfr. cbn [Z.eqb]. unfold fragment_size.
    rewrite Z.eqb_refl. cbn [Z.eqb negb andb]. lia. }
  split; [done|]. split; [|rewrite Hest, Hext; split; [done | split; [done | lia]]].
  assert (Hlen : (9 : Z) <> 0) by done.
  destruct (mikpack_layout _ _ _ _ _ _ _ _ _ Hrun Hlen) as (_ & Hfrag).
  rewrite Hfr in Hfrag. cbn [fst snd] in Hfrag.
  assert (Hat : forall i, 0 <= i < 5 ->
    exists dbuf dbuf', buffers w !! bd = Some dbuf /\ buffers w' !! bd = Some dbuf' /\
      length dbuf' = length dbuf /\
      od + i * (2 + MIKFRAG_HEADER_SIZE) + MIKFRAG_HEADER_SIZE + fragment_size 5 1 i
        <= Z.of_nat (length dbuf) /\
      slice dbuf' (od + i * (2 + MIKFRAG_HEADER_SIZE))
            (MIKFRAG_HEADER_SIZE + fragment_size 5 1 i) =
      mikmeta_serialize {| id := fst (mikid (ids w)); type := MIK_DATA;
                           part := i; size := fragment_size 5 1 i |}
      ++ slice sbuf (os + i * 2) (fragment_size 5 1 i)).
  { intros i Hi.
    destruct (Hfrag i Hi) as (dbuf & dbuf' & Hb & Hb' & Hl & _ & Hhi & payload & _ & Hsl & Hsrc).
    destruct (Hsrc sbuf Hne Hs) as (_ & _ & ->).
    rewrite HR, HM, HF2 in *. by exists dbuf, dbuf'. }
  assert (Hsz : forall i, fragment_size 5 1 i = if i =? 4 then 1 else 2).
  { intros i. unfold fragment_size. rewrite HF2. cbn.
    change (5 - 1) with 4. by destruct (i =? 4). }
  destruct (Hat 4 ltac:(lia)) as (dbuf & dbuf' & Hb & Hb' & Hl & Hhi & _).
  rewrite Hsz in Hhi. cbn in Hhi.
  exists dbuf, dbuf'. split; [done|]. split; [done|]. split; [done|]. split; [lia|].
  repeat constructor.
  all: match goal with |- slice _ (_ + ?i * _) _ = _ =>
         destruct (Hat i ltac:(lia)) as (dbuf0 & dbuf0' & Hb0 & Hb0' & _ & _ & Hsl);
         rewrite Hsz in Hsl; cbn [Z.eqb Pos.eqb] in Hsl; congruence
       end.
Qed.

Lemma nine_octets_two_per_fragment_scenario :
  exists w',
    @mikpack scenario (Some 1%positive) (Ptr 2%positive 0) 9 (Ptr 3%positive 0)
      (scenario_world payload9 29) = Some (0, w') /\
    buffers w' !! 3%positive = Some scenario_packed /\
    @mikpack scenario (Some 1%positive) (Ptr 2%positive 0) 9 (Ptr 3%positive 0)
      (scenario_world payload9 (Z.to_nat (@mikpack_mem_est scenario 9))) = None /\
    @fragments scenario 9 = (5, 1) /\
    @mikpack_mem_est scenario 9 = 11 + 4 /\
    @pack_extent scenario 9 = 9 + 5 * 4.
Proof.
  destruct scenario_run as [w' Hrun]. exists w'. split; [exact Hrun|].
  split; [exact (scenario_run_packed w' Hrun)|]. split; [by vm_compute|].
  assert (HF2 : @MIKPACK_FRAG_SIZE scenario = 2) by reflexivity.
  assert (Hne : (2 : block)%positive <> 3%positive) by done.
  assert (Hs : buffers (scenario_world payload9 29) !! 2%positive = Some payload9)
    by reflexivity.
  destruct (nine_octets_two_per_fragment scenario scenario_ok _ _ _ _ _ _ _ _
              HF2 Hrun Hne Hs) as (Hfr & _ & Hest & Hext & _).
  split; [exact Hfr|]. split; [exact Hest | exact Hext].
Defined.

(** * Beyond the claims: what the packer writes, and where *)

(** ** More on buffers *)

Lemma drop_splice buf o bs (k : nat) :
  0 <= o -> o + Z.of_nat (length bs) <= Z.of_nat (length buf) ->
  (Z.to_nat o + length bs <= k)%nat ->
  drop k (splice buf o bs) = drop k buf.
Proof.
  intros Ho Hb Hk. unfold splice.
  assert (Hlt : length (take (Z.to_nat o) buf) = Z.to_nat o)
    by (rewrite length_take; lia).
  rewrite app_assoc, drop_app_ge by (rewrite length_app, Hlt; lia).
  rewrite length_app, Hlt, drop_drop. f_equal. lia.
Qed.

Lemma take_splice_end buf o bs :
  0 <= o -> o + Z.of_nat (length bs) <= Z.of_nat (length buf) ->
  take (Z.to_nat o + length bs) (splice buf o bs) = take (Z.to_nat o) buf ++ bs.
Proof.
  intros Ho Hb. unfold splice.
  assert (Hlt : length (take (Z.to_nat o) buf) = Z.to_nat o)
    by (rewrite length_take; lia).
  rewrite app_assoc. apply take_app_length'. rewrite length_app, Hlt. lia.
Qed.

Lemma slice_slice_next buf o n m :
  0 <= o -> 0 <= n -> 0 <= m ->
  slice buf o n ++ slice buf (o + n) m = slice buf o (n + m).
Proof.
  intros Ho Hn Hm. unfold slice.
  replace (Z.to_nat (o + n)) with (Z.to_nat o + Z.to_nat n)%nat by lia.
  rewrite <- drop_drop, take_take_drop. f_equal. lia.
Qed.

Lemma replace_frame (buf img : list byte) (a : nat) :
  img = [] \/ (a + length img <= length buf)%nat ->
  length (take a buf ++ img ++ drop (a + length img) buf) = length buf /\
  take a (take a buf ++ img ++ drop (a + length img) buf) = take a buf /\
  drop (a + length img) (take a buf ++ img ++ drop (a + length img) buf)
  = drop (a + length img) buf.
Proof.
  intros [->|Hin].
  - cbn [app length]. by rewrite Nat.add_0_r, take_drop.
  - assert (Hlt : length (take a buf) = a) by (rewrite length_take; lia).
    split; [|split].
    + rewrite !length_app, Hlt, length_drop. lia.
    + by rewrite take_app_length'.
    + rewrite app_assoc, drop_app_length'; [done|]. rewrite length_app, Hlt. lia.
Qed.

(** ** The image of the loop *)

Section ImageFacts.
Context {D : MikDefs} {Hok : MikDefsOk D}.

Lemma pack_loop_step n pk bs os bd od frags remainder md (w w' : world) h dbuf :
  0 <= frags < 2 ^ 16 -> 0 <= remainder < MIKPACK_FRAG_SIZE ->
  0 <= part md < frags ->
  pack_loop (S n) pk (Ptr bs os) frags remainder md w = Some (tt, w') ->
  handles w !! pk = Some h -> data h = Ptr bd od ->
  buffers w !! bd = Some dbuf ->
  exists payload,
    Z.of_nat (length payload) = fragment_size frags remainder (part md) /\
    0 <= od + part md * MIKPACK_REAL_FRAG_SIZE /\
    od + part md * MIKPACK_REAL_FRAG_SIZE + MIKMETA_SERIALIZED_OCTETS
      + fragment_size frags remainder (part md) <= Z.of_nat (length dbuf) /\
    (forall sbuf, bs <> bd -> buffers w !! bs = Some sbuf ->
       0 <= os + part md * MIKPACK_FRAG_SIZE /\
       os + part md * MIKPACK_FRAG_SIZE + fragment_size frags remainder (part md)
         <= Z.of_nat (length sbuf) /\
       payload = slice sbuf (os + part md * MIKPACK_FRAG_SIZE)
                       (fragment_size frags remainder (part md))) /\
    pack_loop n pk (Ptr bs os) frags remainder
      (set_part (set_size md (fragment_size frags remainder (part md))) (part md + 1))
      {| handles := handles w;
         buffers :=
           <[bd := splice dbuf (od + part md * MIKPACK_REAL_FRAG_SIZE)
                     (mikmeta_serialize
                        {| id := id md; type := type md; part := part md;
                           size := fragment_size frags remainder (part md) |}
                      ++ payload)]> (buffers w);
         ids := ids w |} = Some (tt, w').
Proof.
  intros Hfrags Hrem Hp Hrun Hh Hd Hb.
  pose proof frag_size_u16 as HF. pose proof real_frag_size_bounds as [HR HM].
  pose proof stride_no_overflow as Hov.
  rewrite pack_loop_S in Hrun by lia. cbv zeta in Hrun.
  set (p := part md) in *.
  set (sz := fragment_size frags remainder p) in *.
  assert (Hsz : 0 <= sz <= MIKPACK_FRAG_SIZE).
  { unfold sz, fragment_size. destruct (_ && _); lia. }
  assert (Hoff : uint32_t (p * MIKPACK_REAL_FRAG_SIZE) = p * MIKPACK_REAL_FRAG_SIZE).
  { apply Z.mod_small. nia. }
  assert (Hszu : uint16_t sz = sz) by (apply Z.mod_small; lia).
  rewrite Hoff in Hrun.
  apply bind_Some in Hrun as (dst & w1 & Hld & Hrun).
  apply load_data_Some in Hld as [-> (h1 & Hh1 & <-)].
  rewrite Hh in Hh1. injection Hh1 as <-. rewrite Hd in Hrun. cbn [ptr_add] in Hrun.
  apply bind_Some in Hrun as (u1 & w1 & Hwr & Hrun).
  apply write_bytes_Some in Hwr as (b & o & buf & [= <- <-] & Hbuf & Ho & Hlen & ->).
  rewrite Hb in Hbuf. injection Hbuf as <-.
  rewrite serialize_length in Hlen.
  apply bind_Some in Hrun as (dst & w1 & Hld & Hrun).
  apply load_data_Some in Hld as [-> (h1 & Hh1 & <-)].
  cbn [handles] in Hh1. rewrite Hh in Hh1. injection Hh1 as <-.
  rewrite Hd in Hrun. cbn [ptr_add] in Hrun.
  apply bind_Some in Hrun as ([] & w1 & Hcp & Hrun).
  apply memcpy_Some in Hcp as (bytes & Hrd & Hwr).
  apply read_bytes_Some in Hrd
    as (b & o & cur & [= <- <-] & Hcur & Hso & Hsn & Hslen & -> & _).
  cbn [buffers] in Hcur.
  cbn [set_size part size] in Hso, Hsn, Hslen, Hwr. fold p in Hso, Hslen, Hwr.
  rewrite Hszu in Hsn, Hslen, Hwr.
  set (payload := slice cur (os + p * MIKPACK_FRAG_SIZE) sz) in *.
  assert (Hpl : Z.of_nat (length payload) = sz) by (apply length_slice; lia).
  apply write_bytes_Some in Hwr as (b & o & buf & [= <- <-] & Hbuf & Ho2 & Hlen2 & ->).
  cbn [buffers handles ids] in *. rewrite lookup_insert_eq in Hbuf. injection Hbuf as <-.
  rewrite Hpl in Hlen2.
  rewrite length_splice in Hlen2 by (rewrite ?serialize_length; lia).
  rewrite insert_insert_eq in Hrun.
  set (hdr := mikmeta_serialize (set_size md sz)) in *.
  assert (Hhl : Z.of_nat (length hdr) = MIKMETA_SERIALIZED_OCTETS) by apply serialize_length.
  rewrite (Z.add_assoc od), <- Hhl, splice_app in Hrun by lia.
  exists payload. split; [done|]. split; [lia|]. split; [lia|]. split.
  - intros sbuf Hne Hs. rewrite lookup_insert_ne, Hs in Hcur by done.
    injection Hcur as <-. by repeat split; try lia.
  - replace (mikmeta_serialize {| id := id md; type := type md; part := p; size := sz |})
      with hdr by (unfold hdr, set_size; by rewrite Hszu).
    exact Hrun.
Qed.


Lemma pack_loop_image pk bs os bd od frags remainder :
  0 <= frags < 2 ^ 16 -> 0 <= remainder < MIKPACK_FRAG_SIZE ->
  forall n md (w w' : world) h dbuf,
    pack_loop n pk (Ptr bs os) frags remainder md w = Some (tt, w') ->
    handles w !! pk = Some h -> data h = Ptr bd od ->
    buffers w !! bd = Some dbuf ->
    0 <= part md -> part md + Z.of_nat n = frags -> type md = MIK_DATA ->
    exists img,
      buffers w' =
        <[bd := take (Z.to_nat (od + part md * MIKPACK_REAL_FRAG_SIZE)) dbuf ++ img
                ++ drop (Z.to_nat (od + part md * MIKPACK_REAL_FRAG_SIZE) + length img) dbuf]>
          (buffers w) /\
      (n <> O ->
       0 <= od + part md * MIKPACK_REAL_FRAG_SIZE /\
       od + part md * MIKPACK_REAL_FRAG_SIZE + Z.of_nat (length img)
         <= Z.of_nat (length dbuf)) /\
      Z.of_nat (length img) =
        match n with
        | O => 0
        | S k => Z.of_nat k * MIKPACK_REAL_FRAG_SIZE + MIKMETA_SERIALIZED_OCTETS
                 + fragment_size frags remainder (frags - 1)
        end /\
      forall sbuf, bs <> bd -> buffers w !! bs = Some sbuf ->
        img = fragments_from (id md) sbuf os frags remainder n (part md).
Proof.
  intros Hfrags Hrem.
  pose proof frag_size_u16 as HF. pose proof real_frag_size_bounds as [HR HM].
  pose proof real_frag_size as HRF.
  induction n as [|n IH]; intros md w w' h dbuf Hrun Hh Hd Hb Hp Hn Hty.
  - rewrite pack_loop_done in Hrun by lia. injection Hrun as <-.
    exists []. split; [|by repeat split].
    cbn [app length]. rewrite Nat.add_0_r, take_drop. symmetry. by apply insert_id.
  - set (p := part md) in *.
    set (sz := fragment_size frags remainder p).
    assert (Hpr : 0 <= part md < frags) by (fold p; lia).
    destruct (pack_loop_step _ _ _ _ _ _ _ _ _ _ _ _ _ Hfrags Hrem Hpr Hrun Hh Hd Hb)
      as (payload & Hpl & Ho & Hlen & Hsrc & Hrun').
    fold p sz in Hpl, Ho, Hlen, Hsrc, Hrun'.
    set (hdr := mikmeta_serialize _) in Hrun'.
    assert (Hhl : Z.of_nat (length hdr) = MIKMETA_SERIALIZED_OCTETS) by apply serialize_length.
    set (frag := hdr ++ payload) in *.
    assert (Hfl : Z.of_nat (length frag) = MIKMETA_SERIALIZED_OCTETS + sz).
    { unfold frag. rewrite length_app, Nat2Z.inj_add. lia. }
    set (dbuf1 := splice dbuf _ frag) in Hrun'.
    set (md' := set_part _ _) in Hrun'.
    assert (Hp' : part md' = p + 1).
    { unfold md'. cbn [set_part set_size part]. apply Z.mod_small. lia. }
    specialize (IH md' _ _ h dbuf1 Hrun'). cbn [handles buffers ids] in IH.
    rewrite lookup_insert_eq, Hp' in IH.
    destruct IH as (img' & Hb' & Hin' & Hl' & Hsrc'); [done | done | done | lia | lia | done |].
    rewrite insert_insert_eq in Hb'.
    assert (Hl1 : length dbuf1 = length dbuf) by (apply length_splice; lia).
    destruct n as [|k].
    + (* [p] is the last fragment *)
      destruct img' as [|? ?]; [|done]. cbn [app length] in Hb'.
      rewrite Nat.add_0_r, take_drop in Hb'.
      exists frag. split; [by rewrite Hb'|]. split; [intros _; lia|]. split.
      * rewrite Hfl. unfold sz. replace p with (frags - 1) by lia. lia.
      * intros sbuf Hne Hs. destruct (Hsrc sbuf Hne Hs) as (_ & _ & ->).
        cbn [fragments_from]. rewrite app_nil_r. unfold fragment_octets, frag, hdr.
        by rewrite Hty.
    + (* [p] is followed by another fragment: it is a full one *)
      assert (Hfull : sz = MIKPACK_FRAG_SIZE).
      { unfold sz, fragment_size. destruct (Z.eqb_spec p (frags - 1)); [lia | done]. }
      assert (Hnz : S k <> O) by done.
      destruct (Hin' Hnz) as [Ho' Hlen'].
      assert (Ha : Z.to_nat (od + (p + 1) * MIKPACK_REAL_FRAG_SIZE)
                   = (Z.to_nat (od + p * MIKPACK_REAL_FRAG_SIZE) + length frag)%nat) by lia.
      rewrite Ha in Hb'. unfold dbuf1 in Hb'.
      rewrite take_splice_end in Hb' by lia.
      rewrite drop_splice in Hb' by lia.
      exists (frag ++ img'). split; [|split; [|split]].
      * rewrite Hb'. f_equal. rewrite <- !app_assoc. do 3 f_equal.
        rewrite length_app. f_equal. lia.
      * intros _. rewrite length_app, Nat2Z.inj_add. lia.
      * rewrite length_app, Nat2Z.inj_add, Hl', Hfl. lia.
      * intros sbuf Hne Hs. destruct (Hsrc sbuf Hne Hs) as (_ & _ & ->).
        assert (Himg : img' = fragments_from (id md) sbuf os frags remainder (S k) (p + 1)).
        { apply (Hsrc' sbuf Hne). by rewrite lookup_insert_ne. }
        rewrite Himg.
        change (fragments_from (id md) sbuf os frags remainder (S (S k)) p)
          with (fragment_octets (id md) sbuf os frags remainder p
                ++ fragments_from (id md) sbuf os frags remainder (S k) (p + 1)).
        f_equal. unfold fragment_octets, frag, hdr. by rewrite Hty.
Qed.


Lemma mikpack_image pk bs os len bd od (w w' : world) r dbuf :
  mikpack (Some pk) (Ptr bs os) len (Ptr bd od) w = Some (r, w') ->
  len <> 0 -> buffers w !! bd = Some dbuf ->
  exists img,
    buffers w' =
      <[bd := take (Z.to_nat od) dbuf ++ img
              ++ drop (Z.to_nat od + length img) dbuf]> (buffers w) /\
    (0 < fst (fragments len) ->
     0 <= od /\ od + Z.of_nat (length img) <= Z.of_nat (length dbuf)) /\
    Z.of_nat (length img) = pack_extent len /\
    forall sbuf, bs <> bd -> buffers w !! bs = Some sbuf ->
      img = packed_octets (fst (mikid (ids w))) sbuf os len.
Proof.
  intros Hrun Hlen Hb.
  apply mikpack_run in Hrun as (_ & h & Hh & Hloop); [| done | done | done].
  pose proof (fragments_range len) as Hfr.
  pose proof (Z.mod_pos_bound len MIKPACK_FRAG_SIZE frag_size_pos) as Hrem.
  rewrite <- fragments_snd in Hrem.
  eapply (pack_loop_image pk bs os bd od _ _ Hfr Hrem _ _ _ _
            {| ref_count := 0; data := Ptr bd od |} dbuf) in Hloop
    as (img & Hb' & Hin & Hl & Hsrc);
    [ | cbn [handles]; by rewrite lookup_insert_eq | done | done
      | done | cbn [part]; lia | done ].
  cbn [part buffers id] in *. rewrite Z.mul_0_l, Z.add_0_r in *.
  exists img. split; [done|]. split; [|split].
  - intros Hpos. apply Hin. lia.
  - rewrite Hl. unfold pack_extent.
    destruct (fragments len) as [frags remainder]. cbn [fst snd] in *.
    destruct (Z.eqb_spec frags 0) as [->|Hnz]; [done|].
    destruct (Z.to_nat frags) as [|k] eqn:Hk; [lia|]. 
    replace (Z.of_nat k) with (frags - 1) by lia. done.
  - intros sbuf Hne Hs. rewrite (Hsrc sbuf Hne Hs). unfold packed_octets.
    by destruct (fragments len).
Qed.

Lemma fragments_no_wrap len :
  0 <= len -> ceil_fragments len < 2 ^ 16 ->
  fragments len = (ceil_fragments len, len mod MIKPACK_FRAG_SIZE).
Proof.
  intros Hlen Hsmall. pose proof (ceil_fragments_nonneg len Hlen) as Hnn.
  pose proof (fragments_fst len) as Hfst. pose proof (fragments_snd len) as Hsnd.
  destruct (fragments len) as [frags remainder]. cbn [fst snd] in *.
  rewrite Z.mod_small in Hfst by lia. by subst.
Qed.

Lemma ceil_fragments_pos len : 0 < len -> 0 < ceil_fragments len.
Proof.
  intros Hlen. pose proof frag_size_pos. unfold ceil_fragments.
  apply Z.div_str_pos. lia.
Qed.

Lemma pack_extent_no_wrap len :
  0 < len -> ceil_fragments len < 2 ^ 16 ->
  pack_extent len =
    (ceil_fragments len - 1) * MIKPACK_REAL_FRAG_SIZE + MIKMETA_SERIALIZED_OCTETS
    + (if len mod MIKPACK_FRAG_SIZE =? 0 then MIKPACK_FRAG_SIZE
       else len mod MIKPACK_FRAG_SIZE).
Proof.
  intros Hlen Hsmall. pose proof (ceil_fragments_pos len Hlen) as Hpos.
  unfold pack_extent. rewrite fragments_no_wrap by (done || lia).
  destruct (Z.eqb_spec (ceil_fragments len) 0) as [|_]; [lia|].
  unfold fragment_size. rewrite Z.eqb_refl.
  by destruct (len mod MIKPACK_FRAG_SIZE =? 0).
Qed.

Lemma mikpack_mem_est_no_wrap len :
  0 < len -> ceil_fragments len < 2 ^ 16 ->
  mikpack_mem_est len =
    ceil_fragments len * MIKPACK_FRAG_SIZE
    + (if len mod MIKPACK_FRAG_SIZE =? 0 then 0
       else len mod MIKPACK_FRAG_SIZE + MIKFRAG_HEADER_SIZE).
Proof.
  intros Hlen Hsmall. pose proof frag_size_u16 as HF.
  pose proof header_size_nonneg as HH. pose proof header_size_meta as HM.
  pose proof real_frag_size as HR. pose proof stride_no_overflow as Hov.
  pose proof (ceil_fragments_pos len Hlen) as Hpos.
  pose proof (Z.mod_pos_bound len MIKPACK_FRAG_SIZE (proj1 HF)) as Hr.
  unfold mikpack_mem_est. rewrite fragments_no_wrap by (done || lia).
  unfold fragment_data_size, semi_fragment_data_size, size_t.
  destruct (Z.eqb_spec len 0) as [|_]; [lia|].
  destruct (Z.eqb_spec (len mod MIKPACK_FRAG_SIZE) 0) as [Hz|Hnz]; cbn [negb orb].
  - rewrite Z.mod_small; nia.
  - rewrite (Z.mod_small (_ * _)), (Z.mod_small (_ + MIKFRAG_HEADER_SIZE)) by nia.
    rewrite Z.mod_small; nia.
Qed.

End ImageFacts.

(** * Further properties of the packer and the estimator *)

(** X1: the whole effect of a successful call on separate buffers.  The
    handle is bound to the destination with a zero reference count, the
    generator has advanced once, and the destination holds, from [dest]
    on, the fragments of the payload back to back ([pack_extent len]
    octets); every other octet of the state is as before. *)
Theorem mikpack_effect (D : MikDefs) (Hok : MikDefsOk D)
    (pk bs : block) (os len : Z) (bd : block) (od : Z) (w w' : world)
    (sbuf dbuf : list byte) :
  mikpack (Some pk) (Ptr bs os) len (Ptr bd od) w = Some (MIKERR_NONE, w') ->
  bs <> bd -> buffers w !! bs = Some sbuf -> buffers w !! bd = Some dbuf ->
  Z.of_nat (length (packed_octets (fst (mikid (ids w))) sbuf os len)) = pack_extent len /\
  w' = {| handles := <[pk := {| ref_count := 0; data := Ptr bd od |}]> (handles w);
          buffers :=
            <[bd := take (Z.to_nat od) dbuf
                    ++ packed_octets (fst (mikid (ids w))) sbuf os len
                    ++ drop (Z.to_nat od
                             + length (packed_octets (fst (mikid (ids w))) sbuf os len))
                            dbuf]> (buffers w);
          ids := snd (mikid (ids w)) |}.
Proof.
  intros Hrun Hne Hs Hb.
  assert (Hlen : len <> 0).
  { intros ->. rewrite mikpack_guard in Hrun by tauto. injection Hrun as Hc _.
    by destruct codes_differ. }
  destruct (mikpack_image _ _ _ _ _ _ _ _ _ _ Hrun Hlen Hb) as (img & Hb' & _ & Hl & Hsrc).
  rewrite (Hsrc sbuf Hne Hs) in Hb', Hl. split; [done|].
  destruct (mikpack_layout _ _ _ _ _ _ _ _ _ Hrun Hlen) as (Hids & _).
  apply mikpack_run in Hrun as (_ & h & Hh & Hloop); [| done | done | done].
  apply pack_loop_blocks in Hloop as (Hh' & _ & _). cbn [handles] in Hh'.
  destruct w' as [hs bfs g]. cbn [handles buffers ids] in *. by subst.
Qed.

(** X2: a call writes nowhere else.  Whatever it returns, every handle
    but [pack] and every buffer but the one [dest] points into are
    unchanged (the source among them), and in the destination buffer the
    octets before [dest] and those from [pack_extent len] past [dest] on
    are the ones that were there. *)
Theorem mikpack_frame (D : MikDefs) (Hok : MikDefsOk D)
    (pack : option block) (src : ptr) (len : Z) (dest : ptr) (w w' : world) (r : Z) :
  mikpack pack src len dest w = Some (r, w') ->
  (forall q, pack <> Some q -> handles w' !! q = handles w !! q) /\
  (forall b, (forall o, dest <> Ptr b o) -> buffers w' !! b = buffers w !! b) /\
  (forall bd od dbuf, dest = Ptr bd od -> buffers w !! bd = Some dbuf ->
     exists dbuf',
       buffers w' !! bd = Some dbuf' /\ length dbuf' = length dbuf /\
       take (Z.to_nat od) dbuf' = take (Z.to_nat od) dbuf /\
       drop (Z.to_nat od + Z.to_nat (pack_extent len)) dbuf'
       = drop (Z.to_nat od + Z.to_nat (pack_extent len)) dbuf).
Proof.
  intros Hrun.
  destruct (decide (pack = None \/ src = NULL \/ dest = NULL \/ len = 0)) as [Hbad|Hgood].
  { rewrite mikpack_guard in Hrun by done. injection Hrun as <- <-.
    repeat split; try done. intros bd od dbuf _ Hb. by exists dbuf. }
  destruct pack as [pk|]; [|tauto]. destruct src as [|bs os]; [tauto|].
  destruct dest as [|bd od]; [tauto|].
  assert (Hlen : len <> 0) by tauto.
  pose proof Hrun as Hrun0.
  apply mikpack_run in Hrun0 as (_ & h & Hh & Hloop); [| done | done | done].
  pose proof (fragments_range len) as Hfr.
  split; [|split].
  - intros q Hq. apply pack_loop_blocks in Hloop as (-> & _ & _). cbn [handles].
    apply lookup_insert_ne. congruence.
  - intros b Hb.
    destruct (buffers w !! bd) as [dbuf|] eqn:Hd.
    + destruct (mikpack_image _ _ _ _ _ _ _ _ _ _ Hrun Hlen Hd) as (img & -> & _).
      apply lookup_insert_ne. intros ->. by apply (Hb od).
    + destruct (Z.to_nat (fst (fragments len))) as [|n] eqn:Hn.
      * rewrite pack_loop_done in Hloop by (cbn [part]; lia).
        by injection Hloop as <-.
      * eapply (pack_loop_dest _ _ _ _ _ _ _ _ _ {| ref_count := 0; data := Ptr bd od |})
          in Hloop as [? Hsome];
          [ | cbn [part]; lia | cbn [handles]; by rewrite lookup_insert_eq | done ].
        cbn [buffers] in Hsome. congruence.
  - intros ? ? dbuf [= <- <-] Hb.
    destruct (mikpack_image _ _ _ _ _ _ _ _ _ _ Hrun Hlen Hb) as (img & Hb' & Hin & Hl & _).
    eexists. split; [by rewrite Hb', lookup_insert_eq|].
    rewrite <- Hl, Nat2Z.id. apply replace_frame.
    destruct (decide (0 < fst (fragments len))) as [Hpos|Hzero].
    + right. destruct (Hin Hpos). lia.
    + left. apply nil_length_inv. unfold pack_extent in Hl.
      destruct (fragments len) as [frags remainder]. cbn [fst] in *.
      replace frags with 0 in Hl by lia. cbn in Hl. lia.
Qed.

(** X3: the destination a call needs, exactly.  With a valid handle, a
    source of [len] octets in another buffer and at least one fragment to
    write, [mikpack] returns [MIKERR_NONE] if and only if the destination
    buffer holds [pack_extent len] octets from [dest] on; with less, the
    call runs past the end of the buffer. *)
Theorem mikpack_capacity_exact (D : MikDefs) (Hok : MikDefsOk D)
    (pk bs : block) (os len : Z) (bd : block) (od : Z) (w : world)
    (h : mikpack_t) (sbuf dbuf : list byte) :
  handles w !! pk = Some h -> bs <> bd ->
  buffers w !! bs = Some sbuf -> buffers w !! bd = Some dbuf ->
  0 < len -> 0 <= os -> os + len <= Z.of_nat (length sbuf) -> 0 <= od ->
  0 < fst (fragments len) ->
  (exists w', mikpack (Some pk) (Ptr bs os) len (Ptr bd od) w = Some (MIKERR_NONE, w'))
  <-> od + pack_extent len <= Z.of_nat (length dbuf).
Proof.
  intros Hh Hne Hs Hb Hlen Hos Hsl Hod Hpos. split.
  - intros [w' Hrun].
    assert (Hnz : len <> 0) by lia.
    destruct (mikpack_extent_needed _ _ _ _ _ _ _ _ _ Hrun Hnz Hpos) as (dbuf0 & Hb0 & Hcap).
    rewrite Hb in Hb0. by injection Hb0 as <-.
  - intros Hcap. by eapply mikpack_returns.
Qed.

Lemma slice_drop buf o m n :
  0 <= o -> 0 <= m -> 0 <= n ->
  slice buf (o + m) n = drop (Z.to_nat m) (slice buf o (m + n)).
Proof.
  intros Ho Hm Hn. unfold slice.
  replace (Z.to_nat (o + m)) with (Z.to_nat o + Z.to_nat m)%nat by lia.
  rewrite <- drop_drop, take_drop_commute. do 2 f_equal. lia.
Qed.

Lemma payloads_from_source (D : MikDefs) (Hok : MikDefsOk D)
    (dbuf' sbuf : list byte) (od os len : Z) :
  0 <= len -> ceil_fragments len < 2 ^ 16 ->
  (forall j, 0 <= j < fst (fragments len) ->
     0 <= os + j * MIKPACK_FRAG_SIZE /\
     fragment_payload dbuf' od (fst (fragments len)) (snd (fragments len)) j
     = slice sbuf (os + j * MIKPACK_FRAG_SIZE)
             (fragment_size (fst (fragments len)) (snd (fragments len)) j)) ->
  forall (n : nat) (i : Z),
    0 <= i -> i + Z.of_nat n = fst (fragments len) ->
    payloads_from dbuf' od (fst (fragments len)) (snd (fragments len)) n i
    = slice sbuf (os + i * MIKPACK_FRAG_SIZE) (len - i * MIKPACK_FRAG_SIZE).
Proof.
  intros Hlen Hsmall Hpay. pose proof frag_size_pos as HF.
  assert (HF0 : MIKPACK_FRAG_SIZE <> 0) by lia.
  pose proof (Z.div_mod len MIKPACK_FRAG_SIZE HF0) as Hdm.
  pose proof (Z.mod_pos_bound len MIKPACK_FRAG_SIZE HF) as Hr.
  pose proof (ceil_fragments_nonneg len Hlen) as Hnn.
  assert (Hfst : fst (fragments len) = ceil_fragments len).
  { rewrite fragments_fst. apply Z.mod_small. lia. }
  rewrite ceil_fragments_eq in Hfst.
  induction n as [|n IH]; intros i Hi Hn.
  - cbn [payloads_from]. unfold slice.
    replace (Z.to_nat (len - i * MIKPACK_FRAG_SIZE)) with 0%nat; [done|].
    destruct (Z.eqb_spec (len mod MIKPACK_FRAG_SIZE) 0); nia.
  - cbn [payloads_from].
    assert (Hir : 0 <= i < fst (fragments len)) by lia.
    destruct (Hpay i Hir) as [Hoi ->].
    rewrite IH by lia.
    destruct n as [|k].
    + (* the last fragment carries what is left *)
      unfold slice at 2.
      replace (Z.to_nat (len - (i + 1) * MIKPACK_FRAG_SIZE)) with 0%nat
        by (destruct (Z.eqb_spec (len mod MIKPACK_FRAG_SIZE) 0); nia).
      cbn [take]. rewrite app_nil_r. f_equal.
      unfold fragment_size. rewrite fragments_snd.
      replace (i =? fst (fragments len) - 1) with true by (symmetry; apply Z.eqb_eq; lia).
      destruct (Z.eqb_spec (len mod MIKPACK_FRAG_SIZE) 0); cbn [andb negb]; nia.
    + (* a fragment followed by another is a full one *)
      assert (Hsz : fragment_size (fst (fragments len)) (snd (fragments len)) i
                    = MIKPACK_FRAG_SIZE).
      { unfold fragment_size.
        destruct (Z.eqb_spec i (fst (fragments len) - 1)); [lia | done]. }
      rewrite Hsz.
      replace (os + (i + 1) * MIKPACK_FRAG_SIZE)
        with (os + i * MIKPACK_FRAG_SIZE + MIKPACK_FRAG_SIZE) by lia.
      rewrite slice_slice_next.
      * f_equal. lia.
      * lia.
      * lia.
      * destruct (Z.eqb_spec (len mod MIKPACK_FRAG_SIZE) 0); nia.
Qed.

(** X4: the payload can be read back.  After a successful call on
    separate buffers, for a payload of fewer than [2 ^ 16] fragments, the
    payload parts of the fragments in the destination, taken in the order
    of their part indices, are the [len] octets of the source. *)
Theorem mikpack_payload_roundtrip (D : MikDefs) (Hok : MikDefsOk D)
    (pk bs : block) (os len : Z) (bd : block) (od : Z) (w w' : world)
    (sbuf : list byte) :
  mikpack (Some pk) (Ptr bs os) len (Ptr bd od) w = Some (MIKERR_NONE, w') ->
  bs <> bd -> buffers w !! bs = Some sbuf ->
  0 <= len -> ceil_fragments len < 2 ^ 16 ->
  exists dbuf',
    buffers w' !! bd = Some dbuf' /\
    unpack_payload dbuf' od len = slice sbuf os len /\
    Z.of_nat (length (unpack_payload dbuf' od len)) = len.
Proof.
  intros Hrun Hne Hs Hlen0 Hsmall.
  assert (Hlen : len <> 0).
  { intros ->. rewrite mikpack_guard in Hrun by tauto. injection Hrun as Hc _.
    by destruct codes_differ. }
  pose proof frag_size_pos as HF. pose proof real_frag_size_bounds as [HR HM].
  pose proof (ceil_fragments_nonneg len Hlen0) as Hnn.
  assert (Hfst : fst (fragments len) = ceil_fragments len).
  { rewrite fragments_fst. apply Z.mod_small. lia. }
  assert (Hpos : 0 < fst (fragments len)).
  { rewrite Hfst. unfold ceil_fragments. apply Z.div_str_pos. lia. }
  destruct (mikpack_layout _ _ _ _ _ _ _ _ _ Hrun Hlen) as (_ & Hfrag).
  assert (Hfirst : 0 <= 0 < fst (fragments len)) by lia.
  destruct (Hfrag 0 Hfirst) as (dbuf & dbuf' & Hb & Hb' & _ & Hod & _ & pl0 & _ & _ & Hsrc0).
  destruct (Hsrc0 sbuf Hne Hs) as (Hos & _ & _).
  exists dbuf'. split; [done|].
  assert (Hun : unpack_payload dbuf' od len = slice sbuf os len).
  { unfold unpack_payload.
    pose proof (payloads_from_source D Hok dbuf' sbuf od os len Hlen0 Hsmall) as Hpay.
    destruct (fragments len) as [frags remainder] eqn:Hfr. cbn [fst snd] in *.
    rewrite Hpay; [f_equal; lia | | lia | lia].
    intros j Hj.
    destruct (Hfrag j Hj) as (dbuf0 & dbuf0' & _ & Hb0' & _ & Hlo & _ & payload & Hpl & Hsl & Hsrc).
    rewrite Hb' in Hb0'. injection Hb0' as Heq. subst dbuf0'.
    destruct (Hsrc sbuf Hne Hs) as (Hoj & _ & Hpay0). subst payload. split; [done|].
    cbv zeta in Hsl, Hpl. unfold fragment_payload.
    rewrite slice_drop, Hsl by (pose proof (fragment_size_bounds frags len j); lia).
    apply drop_app_length'.
    pose proof (serialize_length
      {| id := fst (mikid (ids w)); type := MIK_DATA; part := j;
         size := fragment_size frags remainder j |}). lia. }
  split; [done|]. rewrite Hun. apply length_slice; [lia | lia |].
  (* the source holds [len] octets: the last fragment was read from it *)
  assert (Hlast : 0 <= fst (fragments len) - 1 < fst (fragments len)) by lia.
  destruct (Hfrag _ Hlast) as (dl & dl' & _ & _ & _ & _ & _ & pl & _ & _ & Hsrc).
  destruct (Hsrc sbuf Hne Hs) as (_ & Hend & _).
  assert (HF0 : MIKPACK_FRAG_SIZE <> 0) by lia.
  pose proof (Z.div_mod len MIKPACK_FRAG_SIZE HF0) as Hdm.
  pose proof (Z.mod_pos_bound len MIKPACK_FRAG_SIZE HF) as Hr.
  rewrite ceil_fragments_eq in Hfst. unfold fragment_size in Hend.
  rewrite Z.eqb_refl, fragments_snd in Hend.
  destruct (Z.eqb_spec (len mod MIKPACK_FRAG_SIZE) 0); cbn [andb negb] in Hend; nia.
Qed.


(** X6: the estimate in closed form.  For a payload of [len > 0] octets
    in fewer than [2 ^ 16] fragments the estimator returns [len] when
    [len] is a multiple of the per-fragment payload size, and otherwise
    [len] plus one full payload size and one header: the partial fragment
    is counted once as a full fragment and once more as a semi-fragment. *)
Theorem mikpack_mem_est_closed (D : MikDefs) (Hok : MikDefsOk D) (len : Z) :
  0 < len -> ceil_fragments len < 2 ^ 16 ->
  mikpack_mem_est len =
    len + (if len mod MIKPACK_FRAG_SIZE =? 0 then 0
           else MIKPACK_FRAG_SIZE + MIKFRAG_HEADER_SIZE).
Proof.
  intros Hlen Hsmall. pose proof frag_size_pos as HF.
  assert (HF0 : MIKPACK_FRAG_SIZE <> 0) by lia.
  pose proof (Z.div_mod len MIKPACK_FRAG_SIZE HF0) as Hdm.
  rewrite mikpack_mem_est_no_wrap, ceil_fragments_eq by done.
  destruct (Z.eqb_spec (len mod MIKPACK_FRAG_SIZE) 0); nia.
Qed.

(** X7: estimating, then packing.  With a destination buffer of exactly
    [mikpack_mem_est len] octets (a valid handle, a source of [len > 0]
    octets in another buffer, fewer than [2 ^ 16] fragments), [mikpack]
    returns [MIKERR_NONE] if and only if headers are empty, or the last
    fragment is partial and the headers of the fragments before it fit
    in one payload size; in every other case the call overruns the
    buffer it was estimated. *)
Theorem mikpack_with_estimate (D : MikDefs) (Hok : MikDefsOk D)
    (pk bs : block) (os len : Z) (bd : block) (w : world)
    (h : mikpack_t) (sbuf dbuf : list byte) :
  handles w !! pk = Some h -> bs <> bd ->
  buffers w !! bs = Some sbuf -> buffers w !! bd = Some dbuf ->
  0 < len -> ceil_fragments len < 2 ^ 16 ->
  0 <= os -> os + len <= Z.of_nat (length sbuf) ->
  Z.of_nat (length dbuf) = mikpack_mem_est len ->
  (exists w', mikpack (Some pk) (Ptr bs os) len (Ptr bd 0) w = Some (MIKERR_NONE, w'))
  <-> (MIKFRAG_HEADER_SIZE = 0 \/
       (len mod MIKPACK_FRAG_SIZE <> 0 /\
        (ceil_fragments len - 1) * MIKFRAG_HEADER_SIZE <= MIKPACK_FRAG_SIZE)).
Proof.
  intros Hh Hne Hs Hb Hlen Hsmall Hos Hsl Hcap.
  pose proof frag_size_pos as HF. pose proof header_size_nonneg as HH.
  pose proof header_size_meta as HM. pose proof real_frag_size as HR.
  pose proof (ceil_fragments_pos len Hlen) as Hpos.
  assert (HF0 : MIKPACK_FRAG_SIZE <> 0) by lia.
  pose proof (Z.div_mod len MIKPACK_FRAG_SIZE HF0) as Hdm.
  pose proof (Z.mod_pos_bound len MIKPACK_FRAG_SIZE HF) as Hr.
  assert (Hfpos : 0 < fst (fragments len)).
  { rewrite fragments_no_wrap by (done || lia). cbn [fst]. lia. }
  assert (Hnz : len <> 0) by lia.
  assert (Hfit : 0 + pack_extent len <= Z.of_nat (length dbuf)
                 <-> (MIKFRAG_HEADER_SIZE = 0 \/
                      (len mod MIKPACK_FRAG_SIZE <> 0 /\
                       (ceil_fragments len - 1) * MIKFRAG_HEADER_SIZE
                         <= MIKPACK_FRAG_SIZE))).
  { rewrite Hcap, pack_extent_no_wrap, mikpack_mem_est_no_wrap by done.
    rewrite ceil_fragments_eq in *.
    destruct (Z.eqb_spec (len mod MIKPACK_FRAG_SIZE) 0); split; intros; nia. }
  rewrite <- Hfit. split.
  - intros [w' Hrun].
    destruct (mikpack_extent_needed _ _ _ _ _ _ _ _ _ Hrun Hnz Hfpos) as (dbuf0 & Hb0 & Hc).
    rewrite Hb in Hb0. by injection Hb0 as <-.
  - intros Hc. eapply mikpack_returns; eauto. lia.
Qed.

(** X8: the counter cannot tell a payload from one [2 ^ 16] fragments
    longer.  For [len > 0], the count and the remainder of
    [len + 2 ^ 16 * MIKPACK_FRAG_SIZE] are those of [len], and so are the
    estimate and the reach of the packer: the extra payload is never
    estimated and never copied. *)
Theorem fragments_period (D : MikDefs) (Hok : MikDefsOk D) (len : Z) :
  0 < len ->
  fragments (len + 2 ^ 16 * MIKPACK_FRAG_SIZE) = fragments len /\
  mikpack_mem_est (len + 2 ^ 16 * MIKPACK_FRAG_SIZE) = mikpack_mem_est len /\
  pack_extent (len + 2 ^ 16 * MIKPACK_FRAG_SIZE) = pack_extent len.
Proof.
  intros Hlen. pose proof frag_size_pos as HF.
  assert (Hfr : fragments (len + 2 ^ 16 * MIKPACK_FRAG_SIZE) = fragments len).
  { unfold fragments, uint16_t.
    rewrite Z.div_add, Z_mod_plus_full by lia.
    rewrite <- (Z.add_mod_idemp_r (len / MIKPACK_FRAG_SIZE)), Z.mod_same by lia.
    by rewrite Z.add_0_r. }
  split; [done|]. split.
  - unfold mikpack_mem_est. rewrite Hfr.
    destruct (Z.eqb_spec len 0) as [|_]; [lia|].
    by destruct (Z.eqb_spec (len + 2 ^ 16 * MIKPACK_FRAG_SIZE) 0) as [|_]; [nia|].
  - unfold pack_extent. by rewrite Hfr.
Qed.

(** X9: packing again into a used destination.  When a second message of
    the same length is packed at the same place, nothing of the first
    message is left: the destination is what packing the second message
    into the original buffer gives. *)
Theorem mikpack_repack (D : MikDefs) (Hok : MikDefsOk D)
    (pk bs : block) (os : Z) (bs2 : block) (os2 len : Z) (bd : block) (od : Z)
    (w w1 w2 : world) (sbuf sbuf2 dbuf : list byte) :
  mikpack (Some pk) (Ptr bs os) len (Ptr bd od) w = Some (MIKERR_NONE, w1) ->
  mikpack (Some pk) (Ptr bs2 os2) len (Ptr bd od) w1 = Some (MIKERR_NONE, w2) ->
  bs <> bd -> bs2 <> bd ->
  buffers w !! bs = Some sbuf -> buffers w !! bs2 = Some sbuf2 ->
  buffers w !! bd = Some dbuf ->
  buffers w2 !! bd =
    Some (take (Z.to_nat od) dbuf
          ++ packed_octets (fst (mikid (ids w1))) sbuf2 os2 len
          ++ drop (Z.to_nat od
                   + length (packed_octets (fst (mikid (ids w1))) sbuf2 os2 len)) dbuf).
Proof.
  intros Hrun1 Hrun2 Hne Hne2 Hs Hs2 Hb.
  assert (Hlen : len <> 0).
  { intros ->. rewrite mikpack_guard in Hrun1 by tauto. injection Hrun1 as Hc _.
    by destruct codes_differ. }
  destruct (mikpack_image _ _ _ _ _ _ _ _ _ _ Hrun1 Hlen Hb)
    as (img1 & Hb1 & Hin1 & Hl1 & _).
  assert (Hd1 : buffers w1 !! bd = Some
                  (take (Z.to_nat od) dbuf ++ img1
                   ++ drop (Z.to_nat od + length img1) dbuf))
    by (by rewrite Hb1, lookup_insert_eq).
  assert (Hs2' : buffers w1 !! bs2 = Some sbuf2)
    by (by rewrite Hb1, lookup_insert_ne).
  destruct (mikpack_image _ _ _ _ _ _ _ _ _ _ Hrun2 Hlen Hd1)
    as (img2 & Hb2 & _ & Hl2 & Hsrc2).
  rewrite <- (Hsrc2 sbuf2 Hne2 Hs2').
  assert (Hsame : length img2 = length img1) by lia.
  rewrite Hb2, lookup_insert_eq, Hsame. f_equal.
  destruct (replace_frame dbuf img1 (Z.to_nat od)) as (_ & Htake & Hdrop).
  { destruct (decide (0 < fst (fragments len))) as [Hpos|Hzero].
    - right. destruct (Hin1 Hpos). lia.
    - left. apply nil_length_inv. unfold pack_extent in Hl1.
      pose proof (fragments_range len) as Hr.
      destruct (fragments len) as [frags remainder]. cbn [fst] in *.
      replace frags with 0 in Hl1 by lia. cbn in Hl1. lia. }
  by rewrite Htake, Hdrop.
Qed.

(** ** The further properties on the concrete scenario *)

Lemma mikpack_effect_scenario :
  exists w',
    @mikpack scenario (Some 1%positive) (Ptr 2%positive 0) 9 (Ptr 3%positive 0)
      (scenario_world payload9 29) = Some (0, w') /\
    @packed_octets scenario 40 payload9 0 9 = scenario_packed /\
    Z.of_nat (length (@packed_octets scenario 40 payload9 0 9)) = @pack_extent scenario 9 /\
    w' = @World scenario
           (<[1%positive := {| ref_count := 0; data := Ptr 3%positive 0 |}]>
              (handles (scenario_world payload9 29)))
           (<[3%positive := take (Z.to_nat 0) (repeat x00 29)
                            ++ @packed_octets scenario 40 payload9 0 9
                            ++ drop (Z.to_nat 0
                                     + length (@packed_octets scenario 40 payload9 0 9))
                                    (repeat x00 29)]>
              (buffers (scenario_world payload9 29)))
           41.
Proof.
  destruct scenario_run as [w' Hrun]. exists w'. split; [exact Hrun|].
  split; [by vm_compute|].
  assert (Hne : (2 : block)%positive <> 3%positive) by done.
  exact (mikpack_effect scenario scenario_ok 1%positive 2%positive 0 9 3%positive 0
           (scenario_world payload9 29) w' payload9 (repeat x00 29)
           Hrun Hne eq_refl eq_refl).
Defined.

Lemma mikpack_frame_scenario :
  exists w',
    @mikpack scenario (Some 1%positive) (Ptr 2%positive 0) 9 (Ptr 3%positive 0)
      (scenario_world payload9 40) = Some (0, w') /\
    buffers w' !! 2%positive = Some payload9 /\
    exists dbuf',
      buffers w' !! 3%positive = Some dbuf' /\ length dbuf' = 40%nat /\
      drop 29 dbuf' = repeat x00 11.
Proof.
  assert (Hrun : exists w',
    @mikpack scenario (Some 1%positive) (Ptr 2%positive 0) 9 (Ptr 3%positive 0)
      (scenario_world payload9 40) = Some (0, w')).
  { eexists. vm_compute. reflexivity. }
  destruct Hrun as [w' Hrun]. exists w'. split; [exact Hrun|].
  destruct (mikpack_frame scenario scenario_ok _ _ _ _ _ _ _ Hrun) as (_ & Hother & Hdest).
  split.
  - transitivity (buffers (scenario_world payload9 40) !! 2%positive);
      [apply Hother; by intros o [=] | reflexivity].
  - destruct (Hdest 3%positive 0 (repeat x00 40) eq_refl eq_refl)
      as (dbuf' & Hb' & Hl & _ & Hdrop).
    exists dbuf'. split; [exact Hb'|]. split; [exact Hl | exact Hdrop].
Defined.

Lemma mikpack_capacity_exact_scenario :
  (exists w',
     @mikpack scenario (Some 1%positive) (Ptr 2%positive 0) 9 (Ptr 3%positive 0)
       (scenario_world payload9 29) = Some (0, w'))
  <-> 0 + @pack_extent scenario 9 <= Z.of_nat (length (repeat x00 29)).
Proof.
  assert (Hne : (2 : block)%positive <> 3%positive) by done.
  apply (mikpack_capacity_exact scenario scenario_ok 1%positive 2%positive 0 9
           3%positive 0 (scenario_world payload9 29)
           {| ref_count := 7; data := NULL |} payload9 (repeat x00 29));
    first [ reflexivity | exact Hne | by vm_compute ].
Defined.

Lemma mikpack_payload_roundtrip_scenario :
  exists w',
    @mikpack scenario (Some 1%positive) (Ptr 2%positive 0) 9 (Ptr 3%positive 0)
      (scenario_world payload9 29) = Some (0, w') /\
    exists dbuf',
      buffers w' !! 3%positive = Some dbuf' /\
      @unpack_payload scenario dbuf' 0 9 = slice payload9 0 9 /\
      Z.of_nat (length (@unpack_payload scenario dbuf' 0 9)) = 9.
Proof.
  destruct scenario_run as [w' Hrun]. exists w'. split; [exact Hrun|].
  assert (Hne : (2 : block)%positive <> 3%positive) by done.
  apply (mikpack_payload_roundtrip scenario scenario_ok 1%positive 2%positive 0 9
           3%positive 0 (scenario_world payload9 29) w' payload9 Hrun Hne eq_refl);
    by vm_compute.
Defined.


Lemma mikpack_mem_est_closed_scenario :
  (0 < 9 /\ @ceil_fragments scenario 9 < 2 ^ 16) /\
  @mikpack_mem_est scenario 9 = 9 + (if 9 mod 2 =? 0 then 0 else 2 + 4) /\
  @mikpack_mem_est scenario 8 = 8 + (if 8 mod 2 =? 0 then 0 else 2 + 4).
Proof.
  split; [by vm_compute|]. split.
  - apply (mikpack_mem_est_closed scenario scenario_ok 9); by vm_compute.
  - apply (mikpack_mem_est_closed scenario scenario_ok 8); by vm_compute.
Defined.

Lemma mikpack_with_estimate_scenario :
  Z.of_nat (length (repeat x00 7)) = @mikpack_mem_est scenario 1 /\
  ((exists w',
      @mikpack scenario (Some 1%positive) (Ptr 2%positive 0) 1 (Ptr 3%positive 0)
        (scenario_world [x61] 7) = Some (0, w'))
   <-> ((4 : Z) = 0 \/ (1 mod 2 <> 0 /\ (@ceil_fragments scenario 1 - 1) * 4 <= 2))).
Proof.
  assert (Hcap : Z.of_nat (length (repeat x00 7)) = @mikpack_mem_est scenario 1)
    by (by vm_compute).
  split; [exact Hcap|].
  assert (Hne : (2 : block)%positive <> 3%positive) by done.
  apply (mikpack_with_estimate scenario scenario_ok 1%positive 2%positive 0 1
           3%positive (scenario_world [x61] 7)
           {| ref_count := 7; data := NULL |} [x61] (repeat x00 7));
    first [ reflexivity | exact Hne | exact Hcap | by vm_compute ].
Defined.

Lemma fragments_period_scenario :
  0 < 9 /\
  @fragments scenario (9 + 2 ^ 16 * 2) = @fragments scenario 9 /\
  @mikpack_mem_est scenario (9 + 2 ^ 16 * 2) = @mikpack_mem_est scenario 9 /\
  @pack_extent scenario (9 + 2 ^ 16 * 2) = @pack_extent scenario 9.
Proof.
  assert (Hlen : 0 < 9) by lia. split; [exact Hlen|].
  exact (fragments_period scenario scenario_ok 9 Hlen).
Defined.

Lemma mikpack_repack_scenario :
  exists w1 w2,
    @mikpack scenario (Some 1%positive) (Ptr 2%positive 0) 9 (Ptr 3%positive 0)
      (scenario_world payload9 29) = Some (0, w1) /\
    @mikpack scenario (Some 1%positive) (Ptr 2%positive 0) 9 (Ptr 3%positive 0)
      w1 = Some (0, w2) /\
    buffers w2 !! 3%positive =
      Some (take (Z.to_nat 0) (repeat x00 29)
            ++ @packed_octets scenario (fst (@mikid scenario (ids w1))) payload9 0 9
            ++ drop (Z.to_nat 0
                     + length (@packed_octets scenario
                                 (fst (@mikid scenario (ids w1))) payload9 0 9))
                    (repeat x00 29)).
Proof.
  eexists. eexists.
  assert (Hne : (2 : block)%positive <> 3%positive) by done.
  split; [vm_compute; reflexivity|]. split; [vm_compute; reflexivity|].
  eapply (mikpack_repack scenario scenario_ok 1%positive 2%positive 0 2%positive 0 9
            3%positive 0 (scenario_world payload9 29) _ _ payload9 payload9
            (repeat x00 29)); first [ exact Hne | vm_compute; reflexivity ].
Defined.
